(** * PhilipsHueAdapter: a shallow embedding of [philips-hue-adapter.js]

    The adapter is asynchronous JavaScript: promise chains suspended at
    network and storage calls, one timer, and a handful of methods that
    the host gateway calls.  The embedding has three layers.

    - The data of the source: the adapter's fields, the devices it
      creates, their properties, the requests it builds.
    - The methods of the source, written in a small monad [prog] whose
      operations are the things the JavaScript does: read and write
      [this], read the clock, perform a synchronous side effect, call
      a method without waiting for its promise, and wait for an
      asynchronous call.  [bind] is [.then], [catch_] is [.catch].
    - An event loop [step]: the outside world settles pending calls,
      lets time pass, fires timers and calls methods.  Every side
      effect is recorded, with the time at which it happened.

    A callback of an already settled promise runs in the same turn of
    the event loop, before any other event: the model runs a chain to
    its next pending call in one go, and each call of the host is an
    event of its own.

    JavaScript numbers are IEEE doubles and the [color] package is a
    third-party dependency; the development is parametric in both. *)

From Stdlib Require Import ZArith Lia Ascii String.
From Stdlib Require QArith Qround.
From stdpp Require Import base option list gmap strings.

Local Open Scope string_scope.
Local Open Scope Z_scope.
Declare Scope prog_scope.
Delimit Scope prog_scope with prog.

(** ** JavaScript numbers and values *)

(** The arithmetic the source performs on numbers. *)
Class JSNumber (num : Type) := {
  num_of_Z : Z -> num;
  num_mul : num -> num -> num;
  num_div : num -> num -> num;
  Math_floor : num -> num
}.

Inductive jsval (num : Type) : Type :=
| JUndefined
| JBool (b : bool)
| JNum (n : num)
| JStr (s : string).
Arguments JUndefined {num}.
Arguments JBool {num} b.
Arguments JNum {num} n.
Arguments JStr {num} s.

(** The part of the [color] package the source uses.  [Color_of] is
    [Color(value)], which throws on a value it cannot read;
    [Color_hsv h s v] is [Color({h: h, s: s, v: v})]. *)
Class ColorPkg (num : Type) := {
  Color : Type;
  Color_of : jsval num -> option Color;
  Color_hsv : num -> num -> num -> Color;
  hex : Color -> string;
  hue : Color -> num;
  saturationv : Color -> num;
  value : Color -> num
}.

Definition THING_TYPE_ON_OFF_COLOR_LIGHT : string := "onOffColorLight".
Definition KNOWN_BRIDGE_USERNAMES : string :=
  "PhilipsHueAdapter.knownBridgeUsernames".

(** A rejection reason or a thrown exception. *)
Definition err : Type := string.

(** A username is a string, or [null]/[undefined]. *)
Abbreviation Username := (option string).

(** The table kept under [KNOWN_BRIDGE_USERNAMES]. *)
Abbreviation Table := (gmap string Username).

(** [if (username)]: the empty string is falsy, like [null]. *)
Definition truthy (u : Username) : bool :=
  match u with
  | Some s => negb (String.eqb s "")
  | None => false
  end.

(** ['...' + username]. *)
Definition show (u : Username) : string :=
  match u with Some s => s | None => "null" end.

(** ** An instance for evaluation

    Exact rational arithmetic in place of doubles, and the textbook
    HSV/RGB conversions in place of the [color] package.  The theorems
    below hold for every instance; this one serves to run the model on
    concrete inputs. *)
Module Exact.

Import QArith Qround.

Definition Qnum : JSNumber Q :=
  {| num_of_Z := inject_Z;
     num_mul := fun x y => Qred (Qmult x y);
     num_div := fun x y => Qred (Qdiv x y);
     Math_floor := fun x => inject_Z (Qfloor x) |}.

(** Red, green and blue, each between 0 and 255. *)
Definition RGB : Type := (Q * Q * Q)%type.

Definition hsv_rgb (h s v : Q) : RGB :=
  let h := (h / 60)%Q in
  let s := (s / 100)%Q in
  let v := (v / 100)%Q in
  let hi := (Qfloor h mod 6)%Z in
  let f := (h - inject_Z (Qfloor h))%Q in
  let p := Qred (255 * v * (1 - s))%Q in
  let q := Qred (255 * v * (1 - s * f))%Q in
  let t := Qred (255 * v * (1 - s * (1 - f)))%Q in
  let v := Qred (255 * v)%Q in
  match hi with
  | 0 => (v, t, p)
  | 1 => (q, v, p)
  | 2 => (p, v, t)
  | 3 => (p, q, v)
  | 4 => (t, p, v)
  | _ => (v, p, q)
  end%Z.

Definition Qmax (x y : Q) : Q := if Qle_bool x y then y else x.
Definition Qmin (x y : Q) : Q := if Qle_bool x y then x else y.

Definition rgb_hue (c : RGB) : Q :=
  let '(r, g, b) := c in
  let max := Qmax r (Qmax g b) in
  let min := Qmin r (Qmin g b) in
  let delta := (max - min)%Q in
  if Qeq_bool delta 0 then 0%Q
  else
    let h := if Qeq_bool r max then ((g - b) / delta)%Q
             else if Qeq_bool g max then (2 + (b - r) / delta)%Q
             else (4 + (r - g) / delta)%Q in
    let h := Qmin (h * 60)%Q 360%Q in
    Qred (if Qle_bool 0 h then h else (h + 360)%Q).

Definition rgb_saturationv (c : RGB) : Q :=
  let '(r, g, b) := c in
  let max := Qmax r (Qmax g b) in
  let min := Qmin r (Qmin g b) in
  if Qeq_bool max 0 then 0%Q else Qred ((max - min) / max * 100)%Q.

Definition rgb_value (c : RGB) : Q :=
  let '(r, g, b) := c in
  Qred (Qmax r (Qmax g b) / 255 * 100)%Q.

Definition hex_digit (n : Z) : ascii :=
  ascii_of_N (Z.to_N (if (n <? 10)%Z then (48 + n)%Z else (55 + n)%Z)).

Definition Math_round (x : Q) : Z := Qfloor (x + (1 # 2))%Q.

Definition hex_byte (x : Q) : string :=
  let n := Z.max 0 (Z.min 255 (Math_round x)) in
  String (hex_digit (n / 16)%Z) (String (hex_digit (n mod 16)%Z) "").

Definition rgb_hex (c : RGB) : string :=
  let '(r, g, b) := c in
  ("#" +:+ hex_byte r +:+ hex_byte g +:+ hex_byte b)%string.

Definition digit_of (c : ascii) : option Z :=
  let n := Z.of_N (N_of_ascii c) in
  (if (48 <=? n) && (n <=? 57) then Some (n - 48)
   else if (65 <=? n) && (n <=? 70) then Some (n - 55)
   else if (97 <=? n) && (n <=? 102) then Some (n - 87)
   else None)%Z.

Definition byte_of (hi lo : ascii) : option Q :=
  match digit_of hi, digit_of lo with
  | Some h, Some l => Some (inject_Z (16 * h + l)%Z)
  | _, _ => None
  end.

Definition rgb_of (v : jsval Q) : option RGB :=
  match v with
  | JStr (String "#" (String r1 (String r0 (String g1 (String g0
            (String b1 (String b0 EmptyString))))))) =>
    match byte_of r1 r0, byte_of g1 g0, byte_of b1 b0 with
    | Some r, Some g, Some b => Some (r, g, b)
    | _, _, _ => None
    end
  | _ => None
  end.

Definition QColor : ColorPkg Q :=
  {| Color := RGB;
     Color_of := rgb_of;
     Color_hsv := hsv_rgb;
     hex := rgb_hex;
     hue := rgb_hue;
     saturationv := rgb_saturationv;
     value := rgb_value |}.

#[export] Existing Instance Qnum.
#[export] Existing Instance QColor.

End Exact.

Section Model.
Context {num : Type} `{!JSNumber num} `{!ColorPkg num}.

Local Abbreviation jsval := (jsval num).

(** ** Data *)

(** What the bridge lists for one light: [light.name] and [light.state],
    the latter missing in an error reply. *)
Record LightState := {
  state_on : jsval; state_hue : num; state_sat : num; state_bri : num
}.
Record Light := { light_name : string; light_state : option LightState }.

(** One element of the reply to the pairing request: [msg.error], and
    [msg.success] with its [username]. *)
Record PairMsg := {
  msg_error : option err;
  msg_success : option Username
}.

Record PhilipsHueProperty := {
  prop_name : string;
  prop_descr : string;     (* [{type: ...}] *)
  prop_value : jsval
}.

Record PhilipsHueDevice := {
  dev_id : string;
  lightId : string;
  dev_name : string;
  dev_type : string;
  properties : gmap string PhilipsHueProperty
}.

Record PhilipsHueAdapter := {
  username : Username;
  bridgeId : string;
  bridgeIp : string;
  pairing : bool;
  pairingEnd : Z;
  lights : gmap string PhilipsHueDevice
}.

Definition set_username (u : Username) (a : PhilipsHueAdapter) :=
  {| username := u; bridgeId := bridgeId a; bridgeIp := bridgeIp a;
     pairing := pairing a; pairingEnd := pairingEnd a; lights := lights a |}.
Definition set_pairing (b : bool) (a : PhilipsHueAdapter) :=
  {| username := username a; bridgeId := bridgeId a; bridgeIp := bridgeIp a;
     pairing := b; pairingEnd := pairingEnd a; lights := lights a |}.
Definition set_pairingEnd (t : Z) (a : PhilipsHueAdapter) :=
  {| username := username a; bridgeId := bridgeId a; bridgeIp := bridgeIp a;
     pairing := pairing a; pairingEnd := t; lights := lights a |}.
Definition set_lights (l : gmap string PhilipsHueDevice) (a : PhilipsHueAdapter) :=
  {| username := username a; bridgeId := bridgeId a; bridgeIp := bridgeIp a;
     pairing := pairing a; pairingEnd := pairingEnd a; lights := l |}.
Definition set_properties (p : gmap string PhilipsHueProperty)
    (d : PhilipsHueDevice) :=
  {| dev_id := dev_id d; lightId := lightId d; dev_name := dev_name d;
     dev_type := dev_type d; properties := p |}.
Definition set_value (v : jsval) (p : PhilipsHueProperty) :=
  {| prop_name := prop_name p; prop_descr := prop_descr p; prop_value := v |}.

(** [this.lights[k]] as a condition: every device object is truthy.
    Objects used as maps are finite maps here: their keys are the ids
    the bridge issues, not names of members of [Object.prototype]. *)
Definition tracked (l : gmap string PhilipsHueDevice) (k : string) : bool :=
  match l !! k with Some _ => true | None => false end.

(** ** Requests *)

(** An object literal, keys in the order written. *)
Definition Payload : Type := list (string * jsval).

Inductive Body :=
| Raw (s : string)
| JSON_stringify (p : Payload).

Record Request := {
  method : string;
  uri : string;
  headers : list (string * string);
  body : option Body
}.

(** Asynchronous calls: the points at which a promise chain waits. *)
Inductive Call :=
| fetch (r : Request)
| json_pair                      (* [replyRaw.json()] of the pairing reply *)
| json_lights                    (* [res.json()] of the light list *)
| text                           (* [res.text()] *)
| storage_init
| storage_getItem (key : string)
| storage_setItem (key : string) (v : Table).

(** What a settled call hands to its continuation. *)
Inductive Answer :=
| Rejected (e : err)
| Resolved                                   (* no value of interest *)
| PairReply (reply : list PairMsg)
| LightList (l : list (string * Light))
| Text (s : string)
| Item (v : option Table).

(** Adapter methods that run as tasks of their own: called by the host
    or by a timer. *)
Inductive Method :=
| m_startPairing (timeoutSeconds : Z)
| m_attemptPairing
| m_cancelPairing
| m_discoverLights
| m_setValue (light : string) (name : string) (v : jsval).

(** Synchronous side effects. *)
Inductive Effect :=
| addAdapter                    (* [adapterManager.addAdapter(this)] *)
| console_error (e : err)
| console_warn (m : string) (name : string)
| setTimeout (cb : Method) (delay : Z)
| handleDeviceAdded (d : PhilipsHueDevice)
| propertyChanged (light : string) (p : PhilipsHueProperty).

(** ** Programs *)

Inductive prog (A : Type) : Type :=
| Ret (a : A)                                    (* return / resolve *)
| Throw (e : err)                                (* throw / reject *)
| This (k : PhilipsHueAdapter -> prog A)         (* read the fields *)
| Assign (a : PhilipsHueAdapter) (k : prog A)    (* write the fields *)
| Date_now (k : Z -> prog A)
| Do (e : Effect) (k : prog A)
| Detach (p : prog unit) (k : prog A)            (* call, drop the promise *)
| Await (c : Call) (k : Answer -> prog A).
Arguments Ret {A} a.
Arguments Throw {A} e.
Arguments This {A} k.
Arguments Assign {A} a k.
Arguments Date_now {A} k.
Arguments Do {A} e k.
Arguments Detach {A} p k.
Arguments Await {A} c k.

(** [p.then(f)] *)
Fixpoint bind {A B : Type} (p : prog A) (f : A -> prog B) : prog B :=
  match p with
  | Ret a => f a
  | Throw e => Throw e
  | This k => This (fun a => bind (k a) f)
  | Assign a k => Assign a (bind k f)
  | Date_now k => Date_now (fun t => bind (k t) f)
  | Do e k => Do e (bind k f)
  | Detach p k => Detach p (bind k f)
  | Await c k => Await c (fun r => bind (k r) f)
  end.

(** [p.catch(h)], and [try { p } catch (e) { h }] *)
Fixpoint catch_ {A : Type} (p : prog A) (h : err -> prog A) : prog A :=
  match p with
  | Ret a => Ret a
  | Throw e => h e
  | This k => This (fun a => catch_ (k a) h)
  | Assign a k => Assign a (catch_ k h)
  | Date_now k => Date_now (fun t => catch_ (k t) h)
  | Do e k => Do e (catch_ k h)
  | Detach p k => Detach p (catch_ k h)
  | Await c k => Await c (fun r => catch_ (k r) h)
  end.

Notation "x ← y ; z" := (bind y (fun x => z))
  (at level 20, y at level 100, z at level 200, only parsing) : prog_scope.
Notation "x ;; z" := (bind x (fun _ => z))
  (at level 100, z at level 200, only parsing, right associativity)
  : prog_scope.
Local Open Scope prog_scope.

Definition this : prog PhilipsHueAdapter := This Ret.
Definition modify (f : PhilipsHueAdapter -> PhilipsHueAdapter) : prog unit :=
  This (fun a => Assign (f a) (Ret tt)).
Definition do (e : Effect) : prog unit := Do e (Ret tt).
Definition detach {A : Type} (p : prog A) : prog unit :=
  Detach (p ;; Ret tt) (Ret tt).

(** [for (var k in obj) { body }] over the entries of [obj] in
    enumeration order; [continue] is the body returning. *)
Fixpoint for_in {A : Type} (obj : list (string * A)) (body : string -> A -> prog unit)
    : prog unit :=
  match obj with
  | [] => Ret tt
  | (k, v) :: rest => body k v ;; for_in rest body
  end.

(** An asynchronous call whose rejection rejects the chain. *)
Definition settled (r : Answer) : prog Answer :=
  match r with Rejected e => Throw e | _ => Ret r end.

Definition call (c : Call) : prog Answer := Await c settled.

(** ** PhilipsHueAdapter: requests to the bridge *)

Definition state_uri (a : PhilipsHueAdapter) (lightId : string) : string :=
  "http://" +:+ bridgeIp a +:+ "/api/" +:+ show (username a) +:+
  "/lights/" +:+ lightId +:+ "/state".

Definition state_request (uri : string) (properties : Payload) : Request :=
  {| method := "PUT"; uri := uri;
     headers := [("Content-Type", "application/json")];
     body := Some (JSON_stringify properties) |}.

(** [sendProperties(lightId, properties)].  The promise resolves to the
    text of the response, or to [undefined] after a failure. *)
Definition sendProperties (lightId : string) (properties : Payload)
    : prog (option string) :=
  a ← this;
  let uri := state_uri a lightId in
  catch_
    (call (fetch (state_request uri properties));;
     res ← call text;
     match res with
     | Text s => Ret (Some s)
     | _ => Throw "TypeError"
     end)
    (fun e => do (console_error e);; Ret None).

(** ** PhilipsHueProperty and PhilipsHueDevice *)

(** Modelled from the spec: [setCachedValue], which the property
    inherits from the gateway's [Property] base class ([../property],
    not part of this file).  The spec describes a "typed property with
    cached value and change notification": the value is stored. *)
Definition setCachedValue (v : jsval) (p : PhilipsHueProperty)
    : PhilipsHueProperty :=
  set_value v p.

(** [this.properties.get(name).value] *)
Definition properties_get_value (d : PhilipsHueDevice) (name : string)
    : prog jsval :=
  match properties d !! name with
  | Some p => Ret (prop_value p)
  | None => Throw "TypeError: Cannot read property 'value' of undefined"
  end.

(** [Color(v)] *)
Definition new_Color (v : jsval) : prog Color :=
  match Color_of v with
  | Some c => Ret c
  | None => Throw "Unable to parse color"
  end.

Definition scaled (component : num) (scale per : Z) : jsval :=
  JNum (Math_floor (num_div (num_mul component (num_of_Z scale)) (num_of_Z per))).

(** The three fields both branches of [notifyPropertyChanged] compute:
    [hue: Math.floor(color.hue() * 65535 / 360)] and so on. *)
Definition hsb (color : Color) : Payload :=
  [ ("hue", scaled (hue color) 65535 360);
    ("sat", scaled (saturationv color) 255 100);
    ("bri", scaled (value color) 255 100) ].

(** [notifyPropertyChanged(property)] of the device [d].  The first
    effect is that of [super.notifyPropertyChanged], modelled from the
    spec as the change notification to the host.  The test
    [if (!properties)] after the [switch] never holds: both branches
    that reach it have built an object. *)
Definition notifyPropertyChanged (d : PhilipsHueDevice)
    (property : PhilipsHueProperty) : prog unit :=
  do (propertyChanged (lightId d) property);;
  if String.eqb (prop_name property) "color" then
    v ← properties_get_value d "color";
    color ← new_Color v;
    let properties := hsb color in
    detach (sendProperties (lightId d) properties)
  else if String.eqb (prop_name property) "on" then
    (* We might be turning on after changing the color *)
    v ← properties_get_value d "color";
    color ← new_Color v;
    on ← properties_get_value d "on";
    let properties := ("on", on) :: hsb color in
    detach (sendProperties (lightId d) properties)
  else
    do (console_warn "Unknown property:" (prop_name property)).

(** [property.setValue(value)] for the property stored under [name] in
    the device of light [light].  The executor stores the value,
    resolves the promise and then notifies the device; what the
    notification throws after the promise is resolved is dropped. *)
Definition setValue (light name : string) (v : jsval) : prog jsval :=
  a ← this;
  match lights a !! light with
  | None => Throw "TypeError: no such device"
  | Some d =>
    match properties d !! name with
    | None => Throw "TypeError: no such property"
    | Some p =>
      let p' := setCachedValue v p in
      let d' := set_properties (<[name := p']> (properties d)) d in
      Assign (set_lights (<[light := d']> (lights a)) a)
        (catch_ (notifyPropertyChanged d' p') (fun _ => Ret tt);;
         Ret (prop_value p'))
    end
  end.

(** The fields the constructor of [PhilipsHueDevice] sets, for a light
    whose [state] is [st]. *)
Definition device_of (id lightId : string) (light : Light) (st : LightState)
    : PhilipsHueDevice :=
  let on := {| prop_name := "on"; prop_descr := "boolean";
               prop_value := state_on st |} in
  let color :=
    hex (Color_hsv
           (num_mul (num_div (state_hue st) (num_of_Z 65535)) (num_of_Z 360))
           (num_mul (num_div (state_sat st) (num_of_Z 255)) (num_of_Z 100))
           (num_mul (num_div (state_bri st) (num_of_Z 255)) (num_of_Z 100))) in
  let color := {| prop_name := "color"; prop_descr := "string";
                  prop_value := JStr color |} in
  {| dev_id := id; lightId := lightId;
     dev_name := light_name light;
     dev_type := THING_TYPE_ON_OFF_COLOR_LIGHT;
     properties := <["color" := color]> (<["on" := on]> ∅) |}.

(** [new PhilipsHueDevice(adapter, id, lightId, light)] *)
Definition new_PhilipsHueDevice (id lightId : string) (light : Light)
    : prog PhilipsHueDevice :=
  match light_state light with
  | None => Throw "TypeError: Cannot read property 'on' of undefined"
  | Some st =>
    let dev := device_of id lightId light st in
    do (handleDeviceAdded dev);;
    Ret dev
  end.

(** ** PhilipsHueAdapter: pairing and discovery *)

Definition device_id (a : PhilipsHueAdapter) (lightId : string) : string :=
  "philips-hue-" +:+ bridgeId a +:+ "-" +:+ lightId.

(** The body of the loop in [discoverLights]. *)
Definition discover_one (lightId : string) (light : Light) : prog unit :=
  a ← this;
  if tracked (lights a) lightId then Ret tt
  else
    let id := device_id a lightId in
    dev ← new_PhilipsHueDevice id lightId light;
    modify (fun a => set_lights (<[lightId := dev]> (lights a)) a).

Definition lights_request (a : PhilipsHueAdapter) : Request :=
  {| method := "GET";
     uri := "http://" +:+ bridgeIp a +:+ "/api/" +:+ show (username a) +:+
            "/lights";
     headers := []; body := None |}.

Definition discoverLights : prog unit :=
  a ← this;
  if negb (truthy (username a)) then Throw "missing username"
  else
    call (fetch (lights_request a));;
    res ← call json_lights;
    match res with
    | LightList lights => for_in lights discover_one
    | _ => Throw "TypeError"
    end.

Definition quote : string := String "034"%char "".

Definition pair_request (a : PhilipsHueAdapter) : Request :=
  {| method := "POST"; uri := "http://" +:+ bridgeIp a +:+ "/api";
     headers := [];
     body := Some (Raw ("{" +:+ quote +:+ "devicetype" +:+ quote +:+ ":" +:+
                        quote +:+ "mozilla_gateway#PhilipsHueAdapter" +:+
                        quote +:+ "}")) |}.

(** The last [.then] of [pair()]: what the bridge's reply amounts to. *)
Definition read_reply (reply : list PairMsg) : err + Username :=
  match reply with
  | [] => inl "empty response from bridge"
  | msg :: _ =>
    match msg_error msg with
    | Some e => inl e
    | None =>
      match msg_success msg with
      | Some u => inr u
      | None => inl "TypeError: Cannot read property 'username' of undefined"
      end
    end
  end.

Definition pair_decode (res : Answer) : prog Username :=
  match res with
  | PairReply reply =>
    match read_reply reply with
    | inl e => Throw e
    | inr u => Ret u
    end
  | _ => Throw "TypeError"
  end.

(** [pair()]: a single attempt at pairing. *)
Definition pair : prog Username :=
  a ← this;
  if truthy (username a) then Ret (username a)
  else
    call (fetch (pair_request a));;
    res ← call json_pair;
    pair_decode res.

(** The last three [.then]s of [attemptPairing]: the credential is
    written into the stored table. *)
Definition store_username : prog unit :=
  call storage_init;;
  res ← call (storage_getItem KNOWN_BRIDGE_USERNAMES);
  match res with
  | Item knownBridgeUsernames =>
    a ← this;
    let knownBridgeUsernames := default ∅ knownBridgeUsernames in
    let knownBridgeUsernames :=
      <[bridgeId a := username a]> knownBridgeUsernames in
    call (storage_setItem KNOWN_BRIDGE_USERNAMES knownBridgeUsernames);;
    Ret tt
  | _ => Throw "TypeError"
  end.

(** The [.catch] of [attemptPairing]: the retry decision. *)
Definition retry (e : err) : prog unit :=
  do (console_error e);;
  a ← this;
  if pairing a then
    now ← Date_now Ret;
    if now <? pairingEnd a then
      (* Attempt pairing again later *)
      do (setTimeout m_attemptPairing 500)
    else Ret tt
  else Ret tt.

(** The [.then]s of [attemptPairing] after [pair()]. *)
Definition after_pair (u : Username) : prog unit :=
  modify (set_username u);;
  discoverLights;;
  store_username.

(** The promise chain of [attemptPairing()]. *)
Definition attemptPairing : prog unit :=
  catch_ (u ← pair; after_pair u) retry.

(** The promise chain the constructor starts: the username stored for
    this bridge, when there is one, is taken over and the lights are
    discovered.  The promise of [discoverLights] is dropped. *)
Definition load_username : prog unit :=
  catch_
    (call storage_init;;
     res ← call (storage_getItem KNOWN_BRIDGE_USERNAMES);
     match res with
     | Item None => Throw "no known bridges"
     | Item (Some knownBridgeUsernames) =>
       a ← this;
       let username := default None (knownBridgeUsernames !! bridgeId a) in
       if negb (truthy username) then Throw "no known username"
       else
         modify (set_username username);;
         detach discoverLights
     | _ => Throw "TypeError"
     end)
    (fun e => do (console_error e)).

(** What the constructor does after it has set the fields. *)
Definition constructor : prog unit :=
  do addAdapter;;
  detach load_username.

Definition startPairing (timeoutSeconds : Z) : prog unit :=
  modify (set_pairing true);;
  now ← Date_now Ret;
  modify (set_pairingEnd (now + timeoutSeconds * 1000));;
  detach attemptPairing.

Definition cancelPairing : prog unit :=
  modify (set_pairing false).

(** What a call of each method runs. *)
Definition body_of (m : Method) : prog unit :=
  match m with
  | m_startPairing timeoutSeconds => startPairing timeoutSeconds
  | m_attemptPairing => detach attemptPairing
  | m_cancelPairing => cancelPairing
  | m_discoverLights => discoverLights
  | m_setValue light name v => setValue light name v;; Ret tt
  end.

(** ** The event loop *)

(** A chain waiting for a call to settle. *)
Record Task := { waiting : Call; cont : Answer -> prog unit }.

Inductive Entry :=
| called (c : Call)            (* an asynchronous call was issued *)
| did (e : Effect)
| unhandled (e : err).         (* a dropped promise was rejected *)

Record World := {
  adapter : PhilipsHueAdapter;
  storage : gmap string Table;     (* node-persist *)
  clock : Z;                       (* [Date.now()], in milliseconds *)
  tasks : list Task;               (* most recently suspended first *)
  timers : list (Z * Method);      (* due time and callback *)
  trace : list (Z * Entry)         (* most recent first *)
}.

Definition set_adapter (a : PhilipsHueAdapter) (w : World) :=
  {| adapter := a; storage := storage w; clock := clock w; tasks := tasks w;
     timers := timers w; trace := trace w |}.
Definition set_storage (s : gmap string Table) (w : World) :=
  {| adapter := adapter w; storage := s; clock := clock w; tasks := tasks w;
     timers := timers w; trace := trace w |}.
Definition set_clock (t : Z) (w : World) :=
  {| adapter := adapter w; storage := storage w; clock := t; tasks := tasks w;
     timers := timers w; trace := trace w |}.
Definition set_tasks (l : list Task) (w : World) :=
  {| adapter := adapter w; storage := storage w; clock := clock w; tasks := l;
     timers := timers w; trace := trace w |}.
Definition set_timers (l : list (Z * Method)) (w : World) :=
  {| adapter := adapter w; storage := storage w; clock := clock w;
     tasks := tasks w; timers := l; trace := trace w |}.
Definition record (e : Entry) (w : World) :=
  {| adapter := adapter w; storage := storage w; clock := clock w;
     tasks := tasks w; timers := timers w;
     trace := (clock w, e) :: trace w |}.

(** A synchronous effect is recorded; [setTimeout] also arms a timer. *)
Definition perform (e : Effect) (w : World) : World :=
  match e with
  | setTimeout cb delay =>
    set_timers ((clock w + delay, cb) :: timers w) (record (did e) w)
  | _ => record (did e) w
  end.

Inductive Status (A : Type) :=
| Finished (r : err + A)
| Suspended (c : Call) (k : Answer -> prog A).
Arguments Finished {A} r.
Arguments Suspended {A} c k.

(** What becomes of a chain nobody waits for. *)
Definition park (s : Status unit) (w : World) : World :=
  match s with
  | Finished (inr _) => w
  | Finished (inl e) => record (unhandled e) w
  | Suspended c k => set_tasks ({| waiting := c; cont := k |} :: tasks w) w
  end.

(** Run a program up to its first suspension point.  JavaScript runs
    to completion: nothing else happens in between. *)
Fixpoint run {A : Type} (p : prog A) (w : World) : World * Status A :=
  match p with
  | Ret a => (w, Finished (inr a))
  | Throw e => (w, Finished (inl e))
  | This k => run (k (adapter w)) w
  | Assign a k => run k (set_adapter a w)
  | Date_now k => run (k (clock w)) w
  | Do e k => run k (perform e w)
  | Detach q k => let '(w1, s) := run q w in run k (park s w1)
  | Await c k => (record (called c) w, Suspended c k)
  end.

Definition start (p : prog unit) (w : World) : World :=
  let '(w1, s) := run p w in park s w1.

(** How the pending call [c] can settle with [a]: any call can be
    rejected; otherwise the answer has the shape the call produces, and
    the storage calls read and write the store. *)
Definition settles (w : World) (c : Call) (a : Answer)
    : option (World * Answer) :=
  match a, c with
  | Rejected e, _ => Some (w, Rejected e)
  | Resolved, fetch _ => Some (w, Resolved)
  | PairReply _, json_pair => Some (w, a)
  | LightList _, json_lights => Some (w, a)
  | Text _, text => Some (w, a)
  | Resolved, storage_init => Some (w, Resolved)
  | Resolved, storage_getItem key => Some (w, Item (storage w !! key))
  | Resolved, storage_setItem key v =>
    Some (set_storage (<[key := v]> (storage w)) w, Resolved)
  | _, _ => None
  end.

Inductive Event :=
| tick (dt : Z)                   (* time passes *)
| settle (i : nat) (a : Answer)   (* the i-th pending call settles *)
| fire (j : nat)                  (* the j-th timer fires *)
| host (m : Method).              (* a method is called *)

Definition step (w : World) (ev : Event) : option World :=
  match ev with
  | tick dt =>
    if 0 <=? dt then Some (set_clock (clock w + dt) w) else None
  | settle i a =>
    match tasks w !! i with
    | Some t =>
      match settles w (waiting t) a with
      | Some (w1, r) => Some (start (cont t r) (set_tasks (delete i (tasks w1)) w1))
      | None => None
      end
    | None => None
    end
  | fire j =>
    match timers w !! j with
    | Some (due, cb) =>
      if due <=? clock w
      then Some (start (body_of cb) (set_timers (delete j (timers w)) w))
      else None
    | None => None
    end
  | host m => Some (start (body_of m) w)
  end.

Fixpoint exec (w : World) (evs : list Event) : option World :=
  match evs with
  | [] => Some w
  | ev :: rest =>
    match step w ev with
    | Some w1 => exec w1 rest
    | None => None
    end
  end.

(** The continuation of a [.then]. *)
Definition and_then {A B : Type} (s : World * Status A)
    (f : A -> prog B) : World * Status B :=
  match s with
  | (w1, Finished (inr x)) => run (f x) w1
  | (w1, Finished (inl e)) => (w1, Finished (inl e))
  | (w1, Suspended c k) => (w1, Suspended c (fun r => bind (k r) f))
  end.

(** The continuation of a [.catch]. *)
Definition or_else {A : Type} (s : World * Status A)
    (h : err -> prog A) : World * Status A :=
  match s with
  | (w1, Finished (inr x)) => (w1, Finished (inr x))
  | (w1, Finished (inl e)) => run (h e) w1
  | (w1, Suspended c k) => (w1, Suspended c (fun r => catch_ (k r) h))
  end.

(** ** Reading the trace *)

Definition is_request (e : Entry) : bool :=
  match e with called (fetch _) => true | _ => false end.

Definition is_registration (e : Entry) : bool :=
  match e with
  | called (fetch r) => String.eqb (method r) "POST"
  | _ => false
  end.

Definition is_storage (e : Entry) : bool :=
  match e with
  | called storage_init | called (storage_getItem _)
  | called (storage_setItem _ _) => true
  | _ => false
  end.

Definition is_device_added (e : Entry) : bool :=
  match e with did (handleDeviceAdded _) => true | _ => false end.

(** The entries [w1] has recorded since [w0], oldest first. *)
Definition since (w0 w1 : World) : list (Z * Entry) :=
  rev (take (length (trace w1) - length (trace w0)) (trace w1)).

(** The promise a program stands for is never rejected, whatever the
    fields, the clock and the answers of its calls are. *)
Fixpoint never_rejects {A : Type} (p : prog A) : Prop :=
  match p with
  | Ret _ => True
  | Throw _ => False
  | This k => forall a, never_rejects (k a)
  | Assign _ k => never_rejects k
  | Date_now k => forall t, never_rejects (k t)
  | Do _ k => never_rejects k
  | Detach _ k => never_rejects k
  | Await _ k => forall r, never_rejects (k r)
  end.

(** The cached value of a property of a light. *)
Definition cached (a : PhilipsHueAdapter) (light name : string)
    : option jsval :=
  match lights a !! light with
  | Some d =>
    match properties d !! name with
    | Some p => Some (prop_value p)
    | None => None
    end
  | None => None
  end.

Definition is_unhandled (e : Entry) : bool :=
  match e with unhandled _ => true | _ => false end.

(** How many devices the entries [l] report as created for the light
    [k]. *)
Definition created (k : string) (l : list (Z * Entry)) : nat :=
  length (List.filter
            (fun e => match snd e with
                      | did (handleDeviceAdded d) => String.eqb (lightId d) k
                      | _ => false
                      end) l).

(** The world after the loop of [discoverLights] has created [dev] for
    the light [k]. *)
Definition with_device (k : string) (dev : PhilipsHueDevice) (w : World)
    : World :=
  set_adapter (set_lights (<[k := dev]> (lights (adapter w))) (adapter w))
    (record (did (handleDeviceAdded dev)) w).

Definition well_formed (entry : string * Light) : Prop :=
  is_Some (light_state (snd entry)).

(** One discovery cycle as the outside world sees it: the method is
    called, the request is answered, and the body decodes to [ls]. *)
Definition discovery (ls : list (string * Light)) : list Event :=
  [host m_discoverLights; settle 0 Resolved; settle 0 (LightList ls)].

(** A pairing session in which the first attempt succeeds: the bridge
    answers the registration with [reply], then lists the lights [ls],
    and the three storage calls go through. *)
Definition successful_pairing (timeoutSeconds : Z) (reply : list PairMsg)
    (ls : list (string * Light)) : list Event :=
  [ host (m_startPairing timeoutSeconds);
    settle 0 Resolved; settle 0 (PairReply reply);
    settle 0 Resolved; settle 0 (LightList ls);
    settle 0 Resolved; settle 0 Resolved; settle 0 Resolved ].

(** The table [attemptPairing] writes for the adapter [a], having read
    [known] from the store. *)
Definition merged (a : PhilipsHueAdapter) (known : option Table) : Table :=
  <[bridgeId a := username a]> (default ∅ known).

Definition is_discovery (e : Entry) : bool :=
  match e with
  | called (fetch r) => String.eqb (method r) "GET"
  | _ => false
  end.

Definition is_write (e : Entry) : bool :=
  match e with called (storage_setItem _ _) => true | _ => false end.

(** The position of the first entry that satisfies [f]. *)
Fixpoint position (f : Entry -> bool) (l : list (Z * Entry)) : option nat :=
  match l with
  | [] => None
  | e :: rest =>
    if f (snd e) then Some 0%nat
    else match position f rest with Some n => Some (S n) | None => None end
  end.

(** ** A pairing session against a bridge that never pairs *)

(** What is left of [attemptPairing] while the registration request is
    in flight, and while its response is being decoded. *)
Definition attempt_after_fetch (r : Answer) : prog unit :=
  catch_ (u ← (settled r;; res ← call json_pair; pair_decode res);
          after_pair u) retry;;
  Ret tt.

Definition attempt_after_json (r : Answer) : prog unit :=
  catch_ (u ← (res ← settled r; pair_decode res); after_pair u) retry;;
  Ret tt.

(** The events of such a session: time passes, timers fire, requests
    fail or are answered, and every answer the bridge gives is a
    refusal. *)
Definition refuses (ev : Event) : bool :=
  match ev with
  | tick _ | fire _ => true
  | settle _ (Rejected _) | settle _ Resolved => true
  | settle _ (PairReply reply) =>
    match read_reply reply with inl _ => true | inr _ => false end
  | _ => false
  end.

(** The registration requests issued at or after [deadline]. *)
Definition late (deadline : Z) (l : list (Z * Entry)) : nat :=
  length (List.filter
            (fun e => is_registration (snd e) && (deadline <=? fst e)) l).

(** Every retry was scheduled before [deadline]. *)
Definition timely (deadline : Z) (l : list (Z * Entry)) : Prop :=
  forall t cb d, In (t, did (setTimeout cb d)) l -> t < deadline.

(** Where a failing session stands: an attempt is in flight, or a retry
    is scheduled, or the session has stopped. *)
Inductive phase (deadline : Z) (w : World) : Prop :=
| in_flight :
    timers w = [] ->
    tasks w = [ {| waiting := fetch (pair_request (adapter w));
                   cont := attempt_after_fetch |} ] \/
    tasks w = [ {| waiting := json_pair; cont := attempt_after_json |} ] ->
    late deadline (trace w) = 0%nat \/
    late deadline (trace w) = 1%nat /\ deadline <= clock w ->
    phase deadline w
| retry_scheduled due :
    tasks w = [] ->
    timers w = [(due, m_attemptPairing)] ->
    late deadline (trace w) = 0%nat ->
    phase deadline w
| stopped :
    tasks w = [] ->
    timers w = [] ->
    (late deadline (trace w) <= 1)%nat ->
    phase deadline w.

Definition session (deadline : Z) (w : World) : Prop :=
  truthy (username (adapter w)) = false /\
  pairing (adapter w) = true /\
  pairingEnd (adapter w) = deadline /\
  timely deadline (trace w) /\
  phase deadline w.

(** ** The specification's wording of some guarantees *)

(** "A cancellation observed before a deferred retry fires suppresses
    that retry": the [j]-th timer of [w], firing while the pairing flag
    is off, issues no request. *)
Definition fires_silently (w : World) (j : nat) : Prop :=
  pairing (adapter w) = false ->
  forall w', step w (fire j) = Some w' ->
  List.filter is_request (map snd (since w w')) = [].

(** "Persist credential via CredentialStore; then trigger light
    discovery": in the history [l], oldest first, the table is written
    before the light list is requested. *)
Definition stored_then_discovered (l : list (Z * Entry)) : Prop :=
  exists i j : nat,
    position is_write l = Some i /\ position is_discovery l = Some j /\
    (i < j)%nat.

(** "If the bridge never succeeds, no retry is attempted after
    [now >= deadline]": no registration request is issued at or after
    the deadline of the session. *)
Definition no_registration_from (deadline : Z) (w : World) : Prop :=
  forall t e, In (t, e) (trace w) -> is_registration e = true -> t < deadline.

(** The fields the constructor sets. *)
Definition new_PhilipsHueAdapter (bridgeId bridgeIp : string)
    : PhilipsHueAdapter :=
  {| username := None; bridgeId := bridgeId; bridgeIp := bridgeIp;
     pairing := false; pairingEnd := 0; lights := ∅ |}.

(** The adapter [a] at time [t] with the store [s]: nothing is pending
    and nothing has been recorded. *)
Definition boot (a : PhilipsHueAdapter) (s : gmap string Table) (t : Z)
    : World :=
  {| adapter := a; storage := s; clock := t; tasks := []; timers := [];
     trace := [] |}.

(** [new PhilipsHueAdapter(adapterManager, bridgeId, bridgeIp)] *)
Definition construct (bridgeId bridgeIp : string) (s : gmap string Table)
    (t : Z) : World :=
  start constructor (boot (new_PhilipsHueAdapter bridgeId bridgeIp) s t).

(** ** The later stages of an attempt *)

(** The last [.then] of [discoverLights]. *)
Definition lights_decode (res : Answer) : prog unit :=
  match res with
  | LightList lights => for_in lights discover_one
  | _ => Throw "TypeError"
  end.

(** What is left of [attemptPairing] while the light list is being
    fetched, and while it is being decoded. *)
Definition attempt_after_lights_fetch (r : Answer) : prog unit :=
  catch_ ((settled r;; res ← call json_lights; lights_decode res);;
          store_username) retry;;
  Ret tt.

Definition attempt_after_lights_json (r : Answer) : prog unit :=
  catch_ ((res ← settled r; lights_decode res);; store_username) retry;;
  Ret tt.

(** The [.catch] of [attemptPairing], run as the end of the chain. *)
Definition failed (e : err) (w : World) : World :=
  start (retry e;; Ret tt) w.

(** ** What the adapter may do, whatever the schedule *)

Section Guarded.

(** [G w w']: a move from the world [w] to the world [w'] that is
    allowed.  [okc w c]: the call [c] may be pending in [w]. *)
Variable G : World -> World -> Prop.
Variable okc : World -> Call -> Prop.

(** Run from [w], the program [p] makes allowed moves only, and so does
    what is left of it when a call it waits for settles later, in a
    world that allowed moves have led to. *)
Fixpoint guarded {A : Type} (p : prog A) (w : World) {struct p} : Prop :=
  match p with
  | Ret _ | Throw _ => True
  | This k => guarded (k (adapter w)) w
  | Assign a k => G w (set_adapter a w) /\ guarded k (set_adapter a w)
  | Date_now k => guarded (k (clock w)) w
  | Do e k => G w (perform e w) /\ guarded k (perform e w)
  | Detach q k => guarded q w /\ forall w', G w w' -> guarded k w'
  | Await c k =>
    okc w c /\ G w (record (called c) w) /\
    forall w' ans w1 r ts,
      G w w' -> settles w' c ans = Some (w1, r) ->
      guarded (k r) (set_tasks ts w1)
  end.

(** A pending chain whose call may be pending and whose continuation
    is guarded whenever the call settles. *)
Definition task_ok (w : World) (t : Task) : Prop :=
  okc w (waiting t) /\
  forall w' ans w1 r ts,
    G w w' -> settles w' (waiting t) ans = Some (w1, r) ->
    guarded (cont t r) (set_tasks ts w1).

Definition tasks_ok (w : World) : Prop := Forall (task_ok w) (tasks w).

(** The same for a chain that [run] has just suspended. *)
Definition status_ok {A : Type} (w : World) (s : Status A) : Prop :=
  match s with
  | Finished _ => True
  | Suspended c k =>
    okc w c /\
    forall w' ans w1 r ts,
      G w w' -> settles w' c ans = Some (w1, r) ->
      guarded (k r) (set_tasks ts w1)
  end.

End Guarded.

(** ** What stays true of the adapter *)

(** The identity of a device: everything but the values of its
    properties. *)
Definition same_device (d d' : PhilipsHueDevice) : Prop :=
  dev_id d' = dev_id d /\ lightId d' = lightId d /\
  dev_name d' = dev_name d /\ dev_type d' = dev_type d.

(** A device as [discoverLights] creates it for the light [k] of the
    bridge [bid], whatever the values of its two properties are now. *)
Definition device_ok (bid k : string) (d : PhilipsHueDevice) : Prop :=
  dev_id d = "philips-hue-" +:+ bid +:+ "-" +:+ k /\
  lightId d = k /\
  dev_type d = THING_TYPE_ON_OFF_COLOR_LIGHT /\
  exists on color,
    properties d =
    <["color" := {| prop_name := "color"; prop_descr := "string";
                    prop_value := color |}]>
      (<["on" := {| prop_name := "on"; prop_descr := "boolean";
                    prop_value := on |}]> ∅).

Definition registry_ok (a : PhilipsHueAdapter) : Prop :=
  forall k d, lights a !! k = Some d -> device_ok (bridgeId a) k d.

(** From [a] to [a']: the bridge is the same, no light is dropped or
    changes its identity, and the registry stays as discovery builds
    it. *)
Definition keeps (a a' : PhilipsHueAdapter) : Prop :=
  bridgeId a' = bridgeId a /\ bridgeIp a' = bridgeIp a /\
  (forall k d, lights a !! k = Some d ->
     exists d', lights a' !! k = Some d' /\ same_device d d') /\
  (registry_ok a -> registry_ok a').

(** From the store [s] to [s']: only the table of known usernames may
    differ, and in it only the entry of the bridge [bid]. *)
Definition others_kept (bid : string) (s s' : gmap string Table) : Prop :=
  (forall key, key <> KNOWN_BRIDGE_USERNAMES -> s' !! key = s !! key) /\
  (forall b, b <> bid ->
     default ∅ (s' !! KNOWN_BRIDGE_USERNAMES) !! b =
     default ∅ (s !! KNOWN_BRIDGE_USERNAMES) !! b).

(** A request goes to the API of the bridge at [ip]; the store is
    called for the table of known usernames. *)
Definition entry_ok (ip : string) (e : Entry) : Prop :=
  match e with
  | called (fetch r) => exists rest, uri r = "http://" +:+ ip +:+ "/api" +:+ rest
  | called (storage_getItem key) | called (storage_setItem key _) =>
    key = KNOWN_BRIDGE_USERNAMES
  | _ => True
  end.

(** Not the warning of [notifyPropertyChanged]. *)
Definition quiet (e : Entry) : Prop :=
  match e with did (console_warn _ _) => False | _ => True end.

(** The moves of the adapter, from the world [w] to the world [w']. *)
Definition moves (w w' : World) : Prop :=
  keeps (adapter w) (adapter w') /\
  others_kept (bridgeId (adapter w)) (storage w) (storage w') /\
  exists l,
    trace w' = (l ++ trace w)%list /\
    Forall (fun e => entry_ok (bridgeIp (adapter w)) e.2) l /\
    (registry_ok (adapter w) -> Forall (fun e => quiet e.2) l).

(** A pending write to the store is a write of the table of known
    usernames that agrees with the stored one on the other bridges. *)
Definition may_call (w : World) (c : Call) : Prop :=
  match c with
  | storage_getItem key => key = KNOWN_BRIDGE_USERNAMES
  | storage_setItem key v =>
    key = KNOWN_BRIDGE_USERNAMES /\
    forall b, b <> bridgeId (adapter w) ->
      v !! b = default ∅ (storage w !! KNOWN_BRIDGE_USERNAMES) !! b
  | _ => True
  end.

(** ** What discovery creates *)

(** A light id as the bridge issues it: a decimal numeral.  For such
    keys [this.lights[lightId]] is what the adapter has stored there
    and nothing else. *)
Definition numeral (s : string) : bool :=
  negb (String.eqb s "") &&
  forallb (fun c => (48 <=? N_of_ascii c)%N && (N_of_ascii c <=? 57)%N)
    (list_ascii_of_string s).

(** [d] is the device [discoverLights] creates for the listed light
    [entry], field by field: the id is
    ['philips-hue-' + bridgeId + '-' + lightId], the name is that of
    the light, [on] holds [light.state.on], and [color] holds the hex
    string of the color with hue [hue / 65535 * 360], saturation
    [sat / 255 * 100] and value [bri / 255 * 100]. *)
Definition device_for (a : PhilipsHueAdapter) (entry : string * Light)
    (d : PhilipsHueDevice) : Prop :=
  exists st,
    light_state entry.2 = Some st /\
    d = {| dev_id := "philips-hue-" +:+ bridgeId a +:+ "-" +:+ entry.1;
           lightId := entry.1;
           dev_name := light_name entry.2;
           dev_type := "onOffColorLight";
           properties :=
             <["color" :=
                 {| prop_name := "color"; prop_descr := "string";
                    prop_value :=
                      JStr (hex (Color_hsv
                        (num_mul (num_div (state_hue st) (num_of_Z 65535))
                                 (num_of_Z 360))
                        (num_mul (num_div (state_sat st) (num_of_Z 255))
                                 (num_of_Z 100))
                        (num_mul (num_div (state_bri st) (num_of_Z 255))
                                 (num_of_Z 100)))) |}]>
               (<["on" :=
                   {| prop_name := "on"; prop_descr := "boolean";
                      prop_value := state_on st |}]> ∅) |}.

(** The world after the loop of [discoverLights] has created the
    devices [devs], in this order. *)
Definition with_devices (devs : list PhilipsHueDevice) (w : World) : World :=
  foldl (fun w d => with_device (lightId d) d w) w devs.

(** ** The pace of a failing session *)

(** How many registration requests the entries [l] show, and when they
    were sent. *)
Definition registrations (l : list (Z * Entry)) : nat :=
  length (List.filter (fun e => is_registration (snd e)) l).

Definition registration_times (l : list (Z * Entry)) : list Z :=
  map fst (List.filter (fun e => is_registration (snd e)) l).

(** The times [l], oldest first, are at least [gap] apart. *)
Definition apart (gap : Z) (l : list Z) : Prop :=
  forall (i j : nat) t1 t2,
    (i < j)%nat -> l !! i = Some t1 -> l !! j = Some t2 -> t1 + gap <= t2.

(** A session started at [t0] with the deadline [deadline] sends its
    registration requests at least 500 ms apart: the [n]-th is sent at
    [t0 + 500 * (n - 1)] or later, and the retry after it is armed
    before the deadline, for 500 ms after every request sent so far. *)
Definition paced (t0 deadline : Z) (w : World) : Prop :=
  let n := Z.of_nat (registrations (trace w)) in
  let times := registration_times (trace w) in
  1 <= n /\
  (n <= 1 \/ t0 + 500 * (n - 2) < deadline) /\
  (forall due cb, In (due, cb) (timers w) ->
     t0 + 500 * n <= due /\ due < deadline + 500 /\
     forall t, In t times -> t + 500 <= due) /\
  (tasks w <> [] -> t0 + 500 * (n - 1) <= clock w) /\
  apart 500 (rev times) /\
  (forall t, In t times -> t <= clock w).

(** ** A push that is under way *)

(** What is left of [sendProperties], its promise dropped by
    [notifyPropertyChanged], while the request is in flight. *)
Definition push_after_fetch (r : Answer) : prog unit :=
  catch_
    (settled r;;
     res ← call text;
     match res with
     | Text s => Ret (Some s)
     | _ => Throw "TypeError"
     end)
    (fun e => do (console_error e);; Ret None);;
  Ret tt.

(** The world [w] with the history [tr] in place of its own. *)
Definition set_trace (tr : list (Z * Entry)) (w : World) :=
  {| adapter := adapter w; storage := storage w; clock := clock w;
     tasks := tasks w; timers := timers w; trace := tr |}.

(** ** The color of a light, there and back *)

(** The value the constructor of [PhilipsHueDevice] gives the [color]
    property of a light whose state is [st]. *)
Definition color_of_state (st : LightState) : option jsval :=
  match properties (device_of "" "" {| light_name := "";
                                       light_state := Some st |} st)
        !! "color" with
  | Some p => Some (prop_value p)
  | None => None
  end.

(** The [hue], [sat] and [bri] that [notifyPropertyChanged] sends for
    the stored color [v]. *)
Definition state_of_color (v : jsval) : option Payload :=
  match Color_of v with
  | Some color => Some (hsb color)
  | None => None
  end.

(** From the state of a light to its stored color and back. *)
Definition round_trip (st : LightState) : option Payload :=
  match color_of_state st with
  | Some v => state_of_color v
  | None => None
  end.

End Model.

Arguments LightState : clear implicits.
Arguments Light : clear implicits.
Arguments PhilipsHueProperty : clear implicits.
Arguments PhilipsHueDevice : clear implicits.
Arguments PhilipsHueAdapter : clear implicits.
Arguments Payload : clear implicits.
Arguments Body : clear implicits.
Arguments Request : clear implicits.
Arguments Call : clear implicits.
Arguments Answer : clear implicits.
Arguments Method : clear implicits.
Arguments Effect : clear implicits.
Arguments Entry : clear implicits.
Arguments Event : clear implicits.
Arguments Task : clear implicits.
Arguments World : clear implicits.
Arguments Ret {num A} a.
Arguments Throw {num A} e.
Arguments This {num A} k.
Arguments Assign {num A} a k.
Arguments Date_now {num A} k.
Arguments Do {num A} e k.
Arguments Detach {num A} p k.
Arguments Await {num A} c k.
Arguments Finished {num A} r.
Arguments Suspended {num A} c k.

(** ** Concrete runs *)
Module Scenario.
Import Exact.

Local Abbreviation Q := QArith_base.Q.

(** A bridge that was just found, at time 0, with an empty store. *)
Definition bridge : PhilipsHueAdapter Q :=
  new_PhilipsHueAdapter "001788fffe23bfc2" "192.168.1.10".

Definition fresh : World Q := boot bridge ∅ 0.

Definition after (evs : list (Event Q)) : World Q :=
  default fresh (exec fresh evs).

(** The bridge's answers to a registration request. *)
Definition accepted : list PairMsg :=
  [ {| msg_error := None;
       msg_success := Some (Some "83b7780291a6ceffbe0bd049104df") |} ].

Definition refused : list PairMsg :=
  [ {| msg_error := Some "link button not pressed"; msg_success := None |} ].

(** The lights of the bridge. *)
Definition desk_state : LightState Q :=
  {| state_on := JBool true; state_hue := num_of_Z 40000;
     state_sat := num_of_Z 255; state_bri := num_of_Z 255 |}.

Definition desk : Light Q :=
  {| light_name := "Desk"; light_state := Some desk_state |}.

(** The device the adapter creates for that light. *)
Definition desk_device : PhilipsHueDevice Q :=
  device_of "philips-hue-001788fffe23bfc2-1" "1" desk desk_state.

Definition hall : Light Q :=
  {| light_name := "Hall";
     light_state := Some {| state_on := JBool false;
                            state_hue := num_of_Z 0;
                            state_sat := num_of_Z 0;
                            state_bri := num_of_Z 128 |} |}.

Definition bridge_lights : list (string * Light Q) :=
  [("1", desk); ("2", hall)].

(** Pairing succeeds at the first attempt. *)
Definition paired : World Q :=
  after (successful_pairing 30 accepted bridge_lights).

(** Pairing is started, the first attempt fails, and the host cancels
    during the 500 ms wait. *)
Definition cancelled_while_waiting : World Q :=
  after [ host (m_startPairing 30); settle 0 (Rejected "ECONNREFUSED");
          host m_cancelPairing; tick 500 ].

(** A bridge that refuses every attempt, each one at once: the attempts
    of a session are then 500 ms apart. *)
Definition always_failing : list (Event Q) :=
  [ settle 0 (Rejected "ECONNREFUSED"); tick 500; fire 0;
    settle 0 Resolved; settle 0 (PairReply refused); tick 500; fire 0 ].

(** A session of one second against that bridge. *)
Definition one_second_session : World Q :=
  after (host (m_startPairing 1) :: always_failing).

(** A registration reply that carries an empty username. *)
Definition nameless : list PairMsg :=
  [ {| msg_error := None; msg_success := Some (Some "") |} ].

(** A light the bridge lists without its state. *)
Definition attic : Light Q :=
  {| light_name := "Attic"; light_state := None |}.

Definition porch : Light Q :=
  {| light_name := "Porch";
     light_state := Some {| state_on := JBool true;
                            state_hue := num_of_Z 8000;
                            state_sat := num_of_Z 200;
                            state_bri := num_of_Z 254 |} |}.

(** A store that knows another bridge only. *)
Definition other_bridge_store : gmap string Table :=
  <[KNOWN_BRIDGE_USERNAMES :=
      <["001788fffe000001" := Some "5f2c1e0a9b7d4c3e8a6b0d1f2e3c4b5a"]> ∅]> ∅.

(** The adapter as its constructor leaves it, with that store. *)
Definition constructed : World Q :=
  construct "001788fffe23bfc2" "192.168.1.10" other_bridge_store 0.

(** The store answers the constructor; then pairing succeeds at the
    first attempt. *)
Definition first_day : list (Event Q) :=
  settle 0 Resolved :: settle 0 Resolved
  :: successful_pairing 30 accepted bridge_lights.

(** In the evening the desk light is switched off and given a color, a
    third light has been added to the bridge, and the lights are
    discovered again. *)
Definition evening : list (Event Q) :=
  [ host (m_setValue "1" "on" (JBool false));
    host (m_setValue "1" "color" (JStr "#FF0000"));
    host m_discoverLights; settle 0 Resolved;
    settle 0 (LightList (bridge_lights ++ [("3", porch)])) ].

Definition at_noon : World Q := default fresh (exec constructed first_day).
Definition at_night : World Q := default fresh (exec at_noon evening).
Definition at_midnight : World Q :=
  default fresh (exec constructed (first_day ++ evening)).

(** A store that knows the bridge. *)
Definition known_store : gmap string Table :=
  <[KNOWN_BRIDGE_USERNAMES :=
      <["001788fffe23bfc2" := Some "83b7780291a6ceffbe0bd049104df"]> ∅]> ∅.

(** The adapter with its username and no light tracked yet. *)
Definition returning : World Q :=
  boot (set_username (Some "83b7780291a6ceffbe0bd049104df") bridge)
    known_store 0.

Definition hall_state : LightState Q :=
  {| state_on := JBool false; state_hue := num_of_Z 0;
     state_sat := num_of_Z 0; state_bri := num_of_Z 128 |}.

Definition hall_device : PhilipsHueDevice Q :=
  device_of "philips-hue-001788fffe23bfc2-2" "2" hall hall_state.

(** The specification's wording of the round trip: for every hue in
    [0, 65535] and every saturation and brightness in [0, 255], each
    component that comes back is within [tolerance] of the original. *)
Definition round_trip_within (tolerance : Z) : Prop :=
  forall (on : jsval Q) (hue sat bri : Z) (hue' sat' bri' : Q),
    0 <= hue <= 65535 -> 0 <= sat <= 255 -> 0 <= bri <= 255 ->
    round_trip {| state_on := on; state_hue := num_of_Z hue;
                  state_sat := num_of_Z sat; state_bri := num_of_Z bri |} =
      Some [("hue", JNum hue'); ("sat", JNum sat'); ("bri", JNum bri')] ->
    QArith_base.Qle (num_of_Z (hue - tolerance)) hue' /\
    QArith_base.Qle hue' (num_of_Z (hue + tolerance)) /\
    QArith_base.Qle (num_of_Z (sat - tolerance)) sat' /\
    QArith_base.Qle sat' (num_of_Z (sat + tolerance)) /\
    QArith_base.Qle (num_of_Z (bri - tolerance)) bri' /\
    QArith_base.Qle bri' (num_of_Z (bri + tolerance)).

(** Full red, with the hue at the upper end of its range. *)
Definition red_at_360 : LightState Q :=
  {| state_on := JBool true; state_hue := num_of_Z 65535;
     state_sat := num_of_Z 255; state_bri := num_of_Z 255 |}.

End Scenario.

Arguments truthy : simpl never.
Arguments show : simpl never.
Arguments String.append : simpl never.
Arguments tracked : simpl never.
Arguments late : simpl never.
Arguments timely : simpl never.

(** * Properties *)

Section Properties.
Context {num : Type} `{!JSNumber num} `{!ColorPkg num}.

Implicit Types (w : World num) (a : PhilipsHueAdapter num).

(** ** Running programs *)

Lemma run_bind {A B : Type} (p : prog A) (f : A -> prog B) w :
  run (bind p f) w = and_then (run p w) f.
Proof.
  revert w.
  induction p as [A x|A e|A k IH|A a k IH|A k IH|A e k IH|A q _ k IH|A c k _];
    intros w; cbn; auto.
  destruct (run q w) as [w1 s]. apply IH.
Qed.

Lemma run_catch {A : Type} (p : prog A) (h : err -> prog A) w :
  run (catch_ p h) w = or_else (run p w) h.
Proof.
  revert w.
  induction p as [A x|A e|A k IH|A a k IH|A k IH|A e k IH|A q _ k IH|A c k _];
    intros w; cbn; auto.
  destruct (run q w) as [w1 s]. apply IH.
Qed.

Lemma since_app w0 w1 (new : list (Z * Entry num)) :
  trace w1 = (new ++ trace w0)%list -> since w0 w1 = rev new.
Proof.
  intros E. unfold since. rewrite E, length_app, Nat.add_sub.
  now rewrite take_app_length.
Qed.


(** ** Symbolic execution *)

Ltac go := unfold exec, step, start, park; cbn.

Lemma exec_step w ev rest w1 w' :
  step w ev = Some w1 -> exec w1 rest = Some w' ->
  exec w (ev :: rest) = Some w'.
Proof. intros E1 E2. cbn. now rewrite E1. Qed.

(** One event at a time: the world reached is computed before the next
    event is looked at. *)
Ltac one_step tac :=
  eapply exec_step;
  [ unfold step, start, park; cbn; tac; reflexivity | ].

(** ** Cancelling *)

(** C10. [cancelPairing] sets the pairing flag to false and changes
    nothing else: the username, the pairing deadline, the lights, the
    bridge id and address, the store, the pending calls and the timers
    are what they were, and nothing is recorded in the trace, so no
    request went to the bridge or to the storage. *)
Theorem cancelPairing_only_clears_the_flag w :
  exists w',
    step w (host m_cancelPairing) = Some w' /\
    pairing (adapter w') = false /\
    username (adapter w') = username (adapter w) /\
    pairingEnd (adapter w') = pairingEnd (adapter w) /\
    lights (adapter w') = lights (adapter w) /\
    bridgeId (adapter w') = bridgeId (adapter w) /\
    bridgeIp (adapter w') = bridgeIp (adapter w) /\
    storage w' = storage w /\
    clock w' = clock w /\
    tasks w' = tasks w /\
    timers w' = timers w /\
    trace w' = trace w.
Proof. eexists; split; [reflexivity|]. cbn. tauto. Qed.

(** The retry decision with the flag off: the error is logged and
    nothing is scheduled. *)
Lemma retry_when_cancelled e w :
  pairing (adapter w) = false ->
  run (retry e) w = (record (did (console_error e)) w, Finished (inr tt)).
Proof. intros Hp. cbn. now rewrite Hp. Qed.

(** C1, as the code has it.  A retry that is waiting when pairing is
    cancelled still fires: with no username known it sends one more
    registration request.  The cancellation takes effect at the next
    retry decision: when that attempt fails, because the request fails
    or because the bridge refuses, the error is logged, no timer is
    armed and no call is left pending. *)
Theorem cancelled_retry_makes_one_last_attempt w j due :
  pairing (adapter w) = false ->
  truthy (username (adapter w)) = false ->
  timers w !! j = Some (due, m_attemptPairing) ->
  due <= clock w ->
  exists w1,
    step w (fire j) = Some w1 /\
    since w w1 = [(clock w, called (fetch (pair_request (adapter w))))] /\
    timers w1 = delete j (timers w) /\
    (forall dt e, 0 <= dt ->
       exists w2,
         exec w1 [tick dt; settle 0 (Rejected e)] = Some w2 /\
         since w1 w2 = [(clock w + dt, did (console_error e))] /\
         timers w2 = timers w1 /\ tasks w2 = tasks w) /\
    (forall dt reply e, 0 <= dt -> read_reply reply = inl e ->
       exists w2,
         exec w1 [settle 0 Resolved; tick dt; settle 0 (PairReply reply)]
           = Some w2 /\
         since w1 w2 = [(clock w, called json_pair);
                        (clock w + dt, did (console_error e))] /\
         timers w2 = timers w1 /\ tasks w2 = tasks w).
Proof.
  intros Hp Hu Ht Hdue.
  eexists. split.
  { unfold step. rewrite Ht. apply Z.leb_le in Hdue. rewrite Hdue.
    go. rewrite Hu. cbn. reflexivity. }
  split; [now apply (since_app _ _ [_])|].
  split; [reflexivity|].
  split.
  - intros dt e Hdt. apply Z.leb_le in Hdt.
    eexists. split.
    { go. rewrite Hdt. go. rewrite Hp. cbn. reflexivity. }
    split; [now apply (since_app _ _ [_])|]. now cbn.
  - intros dt reply e Hdt Hr. apply Z.leb_le in Hdt.
    eexists. split.
    { go. rewrite Hdt. go. rewrite Hr. cbn. rewrite Hp. cbn. reflexivity. }
    split; [now apply (since_app _ _ [_; _])|]. now cbn.
Qed.

(** ** Pairing with a username already known *)

(** C4. When a username is already known, [pair()] resolves at once with
    that username, and [startPairing] records exactly one call: the
    request for the bridge's light list.  No registration request is
    sent, the username stays, and discovery is under way. *)
Theorem known_username_skips_registration w timeoutSeconds :
  truthy (username (adapter w)) = true ->
  run pair w = (w, Finished (inr (username (adapter w)))) /\
  exists w' k,
    step w (host (m_startPairing timeoutSeconds)) = Some w' /\
    since w w' = [(clock w, called (fetch (lights_request (adapter w))))] /\
    username (adapter w') = username (adapter w) /\
    tasks w' = {| waiting := fetch (lights_request (adapter w)); cont := k |}
               :: tasks w.
Proof.
  intros Hu. split.
  { cbn. now rewrite Hu. }
  eexists. eexists. split.
  { go. rewrite Hu. cbn. rewrite Hu. cbn. reflexivity. }
  split; [now apply (since_app _ _ [_])|]. split; reflexivity.
Qed.


(** A username stored for the bridge is taken over when the adapter is
    constructed, and discovery starts without any pairing. *)
Lemma constructor_loads_username id ip s t (known : Table) u :
  s !! KNOWN_BRIDGE_USERNAMES = Some known ->
  known !! id = Some u ->
  truthy u = true ->
  exists w',
    exec (construct id ip s t) [settle 0 Resolved; settle 0 Resolved]
      = Some w' /\
    username (adapter w') = u /\
    map snd (trace w') =
      [ called (fetch (lights_request
                         (set_username u (new_PhilipsHueAdapter id ip))));
        called (storage_getItem KNOWN_BRIDGE_USERNAMES);
        called storage_init;
        did addAdapter ].
Proof.
  intros Hs Hk Hu. eexists. split.
  { unfold construct, boot, new_PhilipsHueAdapter. one_step idtac.
    one_step ltac:(rewrite Hs; cbn; rewrite Hk; cbn; rewrite Hu; cbn;
                   rewrite Hu; cbn).
    reflexivity. }
  split; reflexivity.
Qed.

(** ** Property changes *)

(** C7. Setting the [on] property of a light pushes exactly [on], [hue],
    [sat] and [bri], in this order: [on] is the value just set, and
    [hue], [sat] and [bri] are [Math.floor(color.hue() * 65535 / 360)],
    [Math.floor(color.saturationv() * 255 / 100)] and
    [Math.floor(color.value() * 255 / 100)] of the color the light
    currently stores.  Setting the [color] property pushes exactly
    [hue], [sat] and [bri] of the color just set, computed in the same
    way, and no [on].  The push is a PUT of the JSON of these fields to
    the state of the light.  A property of any other name is reported
    to the host, a warning is logged, and nothing is sent to the
    bridge. *)
Theorem property_change_payloads w light d :
  lights (adapter w) !! light = Some d ->
  (forall p_on p_color c v,
     properties d !! "on" = Some p_on -> prop_name p_on = "on" ->
     properties d !! "color" = Some p_color ->
     Color_of (prop_value p_color) = Some c ->
     exists w',
       step w (host (m_setValue light "on" v)) = Some w' /\
       since w w' =
         [ (clock w, did (propertyChanged (lightId d) (setCachedValue v p_on)));
           (clock w, called (fetch
              {| method := "PUT";
                 uri := "http://" +:+ bridgeIp (adapter w) +:+ "/api/" +:+
                        show (username (adapter w)) +:+ "/lights/" +:+
                        lightId d +:+ "/state";
                 headers := [("Content-Type", "application/json")];
                 body := Some (JSON_stringify
                   [ ("on", v);
                     ("hue", JNum (Math_floor
                        (num_div (num_mul (hue c) (num_of_Z 65535))
                                 (num_of_Z 360))));
                     ("sat", JNum (Math_floor
                        (num_div (num_mul (saturationv c) (num_of_Z 255))
                                 (num_of_Z 100))));
                     ("bri", JNum (Math_floor
                        (num_div (num_mul (value c) (num_of_Z 255))
                                 (num_of_Z 100)))) ]) |})) ]) /\
  (forall p_color c v,
     properties d !! "color" = Some p_color -> prop_name p_color = "color" ->
     Color_of v = Some c ->
     exists w',
       step w (host (m_setValue light "color" v)) = Some w' /\
       since w w' =
         [ (clock w,
            did (propertyChanged (lightId d) (setCachedValue v p_color)));
           (clock w, called (fetch
              {| method := "PUT";
                 uri := "http://" +:+ bridgeIp (adapter w) +:+ "/api/" +:+
                        show (username (adapter w)) +:+ "/lights/" +:+
                        lightId d +:+ "/state";
                 headers := [("Content-Type", "application/json")];
                 body := Some (JSON_stringify
                   [ ("hue", JNum (Math_floor
                        (num_div (num_mul (hue c) (num_of_Z 65535))
                                 (num_of_Z 360))));
                     ("sat", JNum (Math_floor
                        (num_div (num_mul (saturationv c) (num_of_Z 255))
                                 (num_of_Z 100))));
                     ("bri", JNum (Math_floor
                        (num_div (num_mul (value c) (num_of_Z 255))
                                 (num_of_Z 100)))) ]) |})) ]) /\
  (forall name p v,
     properties d !! name = Some p ->
     prop_name p <> "color" -> prop_name p <> "on" ->
     exists w',
       step w (host (m_setValue light name v)) = Some w' /\
       since w w' =
         [ (clock w, did (propertyChanged (lightId d) (setCachedValue v p)));
           (clock w, did (console_warn "Unknown property:" (prop_name p))) ] /\
       tasks w' = tasks w).
Proof.
  intros Hd. split; [|split].
  - intros p_on p_color c v Hon Hname Hcolor Hc.
    eexists. split.
    { go. rewrite Hd, Hon. cbn. rewrite Hname. cbn.
      unfold properties_get_value, new_Color. cbn.
      rewrite lookup_insert_ne by discriminate. rewrite Hcolor. cbn.
      rewrite Hc. cbn. rewrite lookup_insert_eq. cbn. reflexivity. }
    now apply (since_app _ _ [_; _]).
  - intros p_color c v Hcolor Hname Hc.
    eexists. split.
    { go. rewrite Hd, Hcolor. cbn. rewrite Hname. cbn.
      unfold properties_get_value, new_Color. cbn.
      rewrite lookup_insert_eq. cbn. rewrite Hc. cbn. reflexivity. }
    now apply (since_app _ _ [_; _]).
  - intros name p v Hp Hn1 Hn2.
    apply String.eqb_neq in Hn1, Hn2.
    eexists. split.
    { go. rewrite Hd, Hp. cbn. rewrite Hn1, Hn2. cbn. reflexivity. }
    split; [now apply (since_app _ _ [_; _])|reflexivity].
Qed.


Lemma sendProperties_never_rejects lightId properties :
  never_rejects (sendProperties (num:=num) lightId properties).
Proof.
  cbn. intros a r. destruct r; cbn; auto.
  all: intros r; destruct r; cbn; auto.
Qed.

(** What [notifyPropertyChanged] comes to, whichever branch it takes:
    it finishes at once, leaves the adapter alone, and has started at
    most one push. *)
Lemma notifyPropertyChanged_outcome d (p : PhilipsHueProperty num) w :
  adapter (run (notifyPropertyChanged d p) w).1 = adapter w /\
  (exists r, (run (notifyPropertyChanged d p) w).2 = Finished r) /\
  (tasks (run (notifyPropertyChanged d p) w).1 = tasks w \/
   exists req,
     method req = "PUT" /\
     tasks (run (notifyPropertyChanged d p) w).1 =
       {| waiting := fetch req; cont := push_after_fetch |} :: tasks w).
Proof.
  unfold notifyPropertyChanged, properties_get_value, new_Color. cbn.
  repeat (case_match; cbn);
    (split; [reflexivity|]; split; [eauto|]);
    first [ left; reflexivity
          | right; eexists; split; [|reflexivity]; reflexivity ].
Qed.

(** C6. The promise [sendProperties] returns is never rejected.
    Whatever property [setValue] is called for and whatever the value,
    the value is cached, and the push that [notifyPropertyChanged] may
    have started is left pending.  When a pending push fails, wherever
    it stands among the pending calls, either because the request
    fails or because the response cannot be read, the error is logged
    and that is all: the adapter, and with it every cached value,
    the store and the timers stay as they were, no rejection is left
    unhandled, and the push is no longer pending. *)
Theorem push_failure_is_swallowed :
  (forall lightId properties,
     never_rejects (sendProperties (num:=num) lightId properties)) /\
  (forall w light name v old,
     cached (adapter w) light name = Some old ->
     exists w1,
       step w (host (m_setValue light name v)) = Some w1 /\
       cached (adapter w1) light name = Some v /\
       (tasks w1 = tasks w \/
        exists req,
          method req = "PUT" /\
          tasks w1 =
            {| waiting := fetch req; cont := push_after_fetch |} :: tasks w)) /\
  (forall w i req e,
     tasks w !! i = Some {| waiting := fetch req; cont := push_after_fetch |} ->
     (exists w2,
        step w (settle i (Rejected e)) = Some w2 /\
        since w w2 = [(clock w, did (console_error e))] /\
        adapter w2 = adapter w /\ storage w2 = storage w /\
        tasks w2 = delete i (tasks w) /\ timers w2 = timers w) /\
     (exists w1 w2,
        step w (settle i Resolved) = Some w1 /\
        step w1 (settle 0 (Rejected e)) = Some w2 /\
        since w w2 =
          [(clock w, called text); (clock w, did (console_error e))] /\
        adapter w2 = adapter w /\ storage w2 = storage w /\
        tasks w2 = delete i (tasks w) /\ timers w2 = timers w)).
Proof.
  split; [apply sendProperties_never_rejects|]. split.
  - intros w light name v old. unfold cached. intros Hc.
    destruct (lights (adapter w) !! light) as [d|] eqn:Hd; [|discriminate].
    destruct (properties d !! name) as [p|] eqn:Hp; [|discriminate].
    assert (Hcached : forall a', cached
      (set_lights (<[light:=set_properties
         (<[name:=setCachedValue v p]> (properties d)) d]> (lights a')) a')
      light name = Some v).
    { intros a'. unfold cached. cbn. rewrite lookup_insert_eq. cbn.
      now rewrite lookup_insert_eq. }
    eexists. split; [reflexivity|].
    unfold start, setValue. cbn -[notifyPropertyChanged].
    rewrite Hd, Hp. cbn -[notifyPropertyChanged].
    rewrite !run_bind, run_catch.
    match goal with
    | |- context [run (notifyPropertyChanged ?d' ?p') ?W] =>
      destruct (notifyPropertyChanged_outcome d' p' W) as (Ea & (r & Er) & Et);
      destruct (run (notifyPropertyChanged d' p') W) as [w1 s]
    end.
    cbn in Ea, Er, Et. subst s.
    destruct r as [e|[]]; cbn; rewrite Ea; (split; [apply Hcached|exact Et]).
  - intros w i req e Ht. split.
    + eexists. split; [unfold step; rewrite Ht; cbn; reflexivity|].
      split; [now apply (since_app _ _ [_])|]. now split_and!.
    + eexists. eexists. split; [unfold step; rewrite Ht; cbn; reflexivity|].
      split; [reflexivity|].
      split; [now apply (since_app _ _ [_; _])|]. now split_and!.
Qed.


(** ** Discovery *)

Lemma run_discover_one k v w :
  run (discover_one k v) w =
  if tracked (lights (adapter w)) k then (w, Finished (inr tt))
  else match light_state v with
       | Some st =>
         (with_device k (device_of (device_id (adapter w) k) k v st) w,
          Finished (inr tt))
       | None =>
         (w, Finished (inl "TypeError: Cannot read property 'on' of undefined"))
       end.
Proof.
  cbn. destruct (tracked _ _); [reflexivity|].
  unfold new_PhilipsHueDevice. destruct (light_state v); reflexivity.
Qed.

Lemma run_loop_cons k v ls w :
  run (for_in ((k, v) :: ls) discover_one) w =
  if tracked (lights (adapter w)) k then run (for_in ls discover_one) w
  else match light_state v with
       | Some st =>
         run (for_in ls discover_one)
           (with_device k (device_of (device_id (adapter w) k) k v st) w)
       | None =>
         (w, Finished (inl "TypeError: Cannot read property 'on' of undefined"))
       end.
Proof.
  change (for_in ((k, v) :: ls) discover_one)
    with (bind (discover_one k v) (fun _ => for_in ls discover_one)).
  rewrite run_bind, run_discover_one.
  destruct (tracked _ _); [reflexivity|].
  destruct (light_state v); reflexivity.
Qed.

Lemma tracked_insert (l : gmap string (PhilipsHueDevice num)) k d k' :
  tracked (<[k := d]> l) k' = String.eqb k k' || tracked l k'.
Proof.
  unfold tracked. destruct (String.eqb_spec k k') as [->|Hne].
  - now rewrite lookup_insert_eq.
  - now rewrite lookup_insert_ne.
Qed.

(** What the loop of [discoverLights] does: it finishes, touches only
    the registry and the trace, keeps every entry the registry had, and
    reports one new device for each light it starts to track. *)
Lemma loop_spec ls : forall w, exists w' r new,
  run (for_in ls discover_one) w = (w', Finished r) /\
  username (adapter w') = username (adapter w) /\
  bridgeId (adapter w') = bridgeId (adapter w) /\
  bridgeIp (adapter w') = bridgeIp (adapter w) /\
  pairing (adapter w') = pairing (adapter w) /\
  pairingEnd (adapter w') = pairingEnd (adapter w) /\
  storage w' = storage w /\ clock w' = clock w /\
  tasks w' = tasks w /\ timers w' = timers w /\
  trace w' = (new ++ trace w)%list /\
  Forall (fun e => is_device_added (snd e) = true) new /\
  (forall k d, lights (adapter w) !! k = Some d ->
               lights (adapter w') !! k = Some d) /\
  (forall k, created k new =
     if tracked (lights (adapter w)) k then 0%nat
     else if tracked (lights (adapter w')) k then 1%nat else 0%nat) /\
  (Forall well_formed ls ->
     r = inr tt /\
     forall k, In k (map fst ls) -> tracked (lights (adapter w')) k = true).
Proof.
  induction ls as [|[k v] ls IH]; intros w.
  { exists w, (inr tt), []. cbn. split_and!; auto.
    intros k. now destruct (tracked _ _). }
  rewrite run_loop_cons.
  destruct (tracked (lights (adapter w)) k) eqn:Hk.
  - destruct (IH w) as (w' & r & new & Hrun & Hu & Hb & Hi & Hp & He & Hs &
      Hc & Hta & Hti & Htr & Hnew & Hmono & Hcount & Hok).
    exists w', r, new. split_and!; auto.
    intros Hwf. apply Forall_cons in Hwf as [_ Hwf].
    split; [now apply Hok|].
    intros k' [Heq|Hin]; [cbn in Heq; subst k'|now apply Hok].
    unfold tracked in *. destruct (lights (adapter w) !! k) eqn:E;
      [|discriminate]. now rewrite (Hmono _ _ E).
  - destruct (light_state v) as [st|] eqn:Hst.
    + set (dev := device_of (device_id (adapter w) k) k v st).
      destruct (IH (with_device k dev w)) as (w' & r & new & Hrun & Hu & Hb &
        Hi & Hp & He & Hs & Hc & Hta & Hti & Htr & Hnew & Hmono & Hcount & Hok).
      cbn in Hu, Hb, Hi, Hp, He, Hs, Hc, Hta, Hti, Htr, Hmono, Hcount.
      assert (Hkw' : tracked (lights (adapter w')) k = true).
      { unfold tracked. now rewrite (Hmono k dev (lookup_insert_eq _ _ _)). }
      exists w', r, (new ++ [(clock w, did (handleDeviceAdded dev))])%list.
      split_and!; auto.
      * now rewrite <- app_assoc.
      * apply Forall_app. split; [assumption|]. now constructor.
      * intros k' d Hd. apply Hmono.
        rewrite lookup_insert_ne; [assumption|].
        intros <-. unfold tracked in Hk. now rewrite Hd in Hk.
      * intros k'. unfold created in *.
        rewrite List.filter_app, length_app, Hcount, tracked_insert. cbn.
        destruct (String.eqb_spec k k') as [<-|Hne]; cbn.
        -- now rewrite Hk, Hkw'.
        -- destruct (String.eqb_spec k k'); [contradiction|]. cbn.
           rewrite Nat.add_0_r.
           destruct (tracked (lights (adapter w)) k'); reflexivity.
      * intros Hwf. apply Forall_cons in Hwf as [_ Hwf].
        split; [now apply Hok|].
        intros k' [Heq|Hin]; [cbn in Heq; now subst k'|now apply Hok].
    + exists w, (inl "TypeError: Cannot read property 'on' of undefined"), [].
      split_and!; auto.
      * intros k'. cbn. destruct (tracked (lights (adapter w)) k'); reflexivity.
      * intros Hwf. apply Forall_cons in Hwf as [[st Hwf] _].
        cbn in Hwf. congruence.
Qed.


(** Running the loop again on the registry it produced changes nothing
    and ends the same way. *)
Lemma loop_again ls : forall w w' r,
  run (for_in ls discover_one) w = (w', Finished r) ->
  forall w2, lights (adapter w2) = lights (adapter w') ->
  run (for_in ls discover_one) w2 = (w2, Finished r).
Proof.
  induction ls as [|[k v] ls IH]; intros w w' r Hrun w2 Hl.
  { cbn in *. congruence. }
  rewrite run_loop_cons in *.
  assert (Hkeep : forall w0, run (for_in ls discover_one) w0 = (w', Finished r) ->
            tracked (lights (adapter w0)) k = true ->
            tracked (lights (adapter w2)) k = true).
  { intros w0 H0 Hk0.
    destruct (loop_spec ls w0) as (w'' & r' & new & Hrun' & _ & _ & _ & _ &
      _ & _ & _ & _ & _ & _ & _ & Hmono & _).
    rewrite H0 in Hrun'. injection Hrun' as <- <-.
    unfold tracked in *. rewrite Hl.
    destruct (lights (adapter w0) !! k) eqn:E; [|discriminate].
    now rewrite (Hmono _ _ E). }
  destruct (tracked (lights (adapter w)) k) eqn:Hk.
  - rewrite (Hkeep w Hrun Hk). now apply (IH w w').
  - destruct (light_state v) as [st|] eqn:Hst.
    + erewrite Hkeep; [|exact Hrun|].
      * now apply (IH _ w' r Hrun).
      * cbn. rewrite tracked_insert. now rewrite String.eqb_refl.
    + injection Hrun as <- <-. rewrite Hl, Hk. reflexivity.
Qed.

Lemma discovery_spec w ls :
  truthy (username (adapter w)) = true ->
  exists W w' r,
    adapter W = adapter w /\ storage W = storage w /\ clock W = clock w /\
    tasks W = tasks w /\ timers W = timers w /\
    trace W = (clock w, called json_lights)
              :: (clock w, called (fetch (lights_request (adapter w))))
              :: trace w /\
    run (for_in ls discover_one) W = (w', Finished r) /\
    exec w (discovery ls) = Some (park (Finished r) w').
Proof.
  intros Hu.
  set (W := {| adapter := adapter w; storage := storage w; clock := clock w;
               tasks := tasks w; timers := timers w;
               trace := (clock w, called json_lights)
                        :: (clock w, called (fetch (lights_request (adapter w))))
                        :: trace w |}).
  destruct (loop_spec ls W) as (w' & r & new & Hrun & _).
  exists W, w', r. split_and!; try reflexivity; [assumption|].
  unfold discovery. go. rewrite Hu. cbn.
  match goal with
  | |- context [run (for_in ls discover_one) ?X] =>
    change X with W; rewrite Hrun
  end.
  reflexivity.
Qed.

Lemma created_since w0 w1 new k :
  trace w1 = (new ++ trace w0)%list -> created k (since w0 w1) = created k new.
Proof.
  intros E. rewrite (since_app _ _ _ E). unfold created.
  now rewrite List.filter_rev, length_rev.
Qed.

Lemma park_finished (r : err + unit) w :
  adapter (park (Finished r) w) = adapter w /\
  exists skip, trace (park (Finished r) w) = (skip ++ trace w)%list /\
    Forall (fun e => is_unhandled (snd e) = true) skip.
Proof.
  destruct r as [e|[]]; cbn.
  - split; [reflexivity|]. exists [(clock w, unhandled e)]. split; [reflexivity|].
    now repeat constructor.
  - split; [reflexivity|]. now exists [].
Qed.


(** C5. Two discovery cycles over the same light list.  The first keeps
    every entry the registry already had.  The second constructs no
    device and leaves the adapter, hence every entry of the registry
    with its id, name and properties, exactly as the first left it.
    Over both cycles no light is created twice, and when every listed
    light has a state, each listed light that was not tracked before
    is created exactly once. *)
Theorem rediscovery_creates_nothing w ls :
  truthy (username (adapter w)) = true ->
  exists w1 w2,
    exec w (discovery ls) = Some w1 /\
    exec w1 (discovery ls) = Some w2 /\
    (forall k d, lights (adapter w) !! k = Some d ->
                 lights (adapter w1) !! k = Some d) /\
    List.filter is_device_added (map snd (since w1 w2)) = [] /\
    adapter w2 = adapter w1 /\
    (forall k, created k (since w w2) <= 1)%nat /\
    (Forall well_formed ls ->
     forall k, In k (map fst ls) -> lights (adapter w) !! k = None ->
     created k (since w w2) = 1%nat).
Proof.
  intros Hu.
  destruct (discovery_spec w ls Hu)
    as (W & w' & r & HaW & _ & HcW & _ & _ & HtrW & Hrun & Hexec).
  destruct (loop_spec ls W) as (w'' & r' & new & Hrun' & Hu' & _ & _ & _ & _ &
    _ & Hc' & _ & _ & Htr' & _ & Hmono & Hcount & Hok).
  rewrite Hrun in Hrun'. injection Hrun' as <- <-.
  destruct (park_finished r w') as (Ha1 & _).
  assert (Hu1 : truthy (username (adapter (park (Finished r) w'))) = true).
  { now rewrite Ha1, Hu', HaW. }
  destruct (discovery_spec (park (Finished r) w') ls Hu1)
    as (W2 & w2' & r2 & HaW2 & _ & HcW2 & _ & _ & HtrW2 & Hrun2 & Hexec2).
  assert (HL : lights (adapter W2) = lights (adapter w')) by now rewrite HaW2, Ha1.
  rewrite (loop_again ls W w' r Hrun W2 HL) in Hrun2.
  injection Hrun2 as <- <-.
  exists (park (Finished r) w'), (park (Finished r) W2).
  split; [assumption|]. split; [assumption|].
  assert (Htrace : exists skip2 skip1,
    trace (park (Finished r) W2) =
      (skip2 ++ trace (park (Finished r) w'))%list /\
    trace (park (Finished r) W2) = (skip1 ++ new ++ trace W)%list /\
    List.filter is_device_added (map snd (rev skip2)) = [] /\
    forall k, created k (skip1 ++ new ++
      [ (clock w, called json_lights);
        (clock w, called (fetch (lights_request (adapter w)))) ])%list
      = created k new).
  { destruct r as [e|[]]; cbn [park trace record]; rewrite HtrW2; cbn [park trace record].
    - eexists [_; _; _], [_; _; _; _]. split; [reflexivity|].
      split; [cbn; now rewrite Htr'|]. split; [reflexivity|].
      intros k. unfold created. cbn.
      rewrite List.filter_app, length_app. cbn. lia.
    - eexists [_; _], [_; _]. split; [reflexivity|].
      split; [cbn; now rewrite Htr'|]. split; [reflexivity|].
      intros k. unfold created. cbn.
      rewrite List.filter_app, length_app. cbn. lia. }
  destruct Htrace as (skip2 & skip1 & Hs2 & Hs1 & Hnone & Hsame).
  assert (Hcreated : forall k, created k (since w (park (Finished r) W2)) =
            if tracked (lights (adapter w)) k then 0%nat
            else if tracked (lights (adapter w')) k then 1%nat else 0%nat).
  { intros k. rewrite <- HaW, <- Hcount, <- Hsame.
    apply created_since. rewrite Hs1, HtrW.
    now rewrite <- !app_assoc. }
  split_and!.
  - intros k d Hd. rewrite Ha1. apply Hmono. now rewrite HaW.
  - now rewrite (since_app _ _ _ Hs2).
  - destruct (park_finished r W2) as (-> & _). now rewrite HaW2.
  - intros k. rewrite Hcreated. repeat case_match; lia.
  - intros Hwf k Hin Hnew. rewrite Hcreated.
    unfold tracked at 1. rewrite Hnew.
    destruct (Hok Hwf) as [_ Hall]. now rewrite (Hall k Hin).
Qed.


(** ** A successful attempt *)

Lemma successful_attempt w timeoutSeconds reply u ls :
  truthy (username (adapter w)) = false ->
  read_reply reply = inr u ->
  truthy u = true ->
  Forall well_formed ls ->
  exists w' new,
    exec w (successful_pairing timeoutSeconds reply ls) = Some w' /\
    Forall (fun e => is_device_added (snd e) = true) new /\
    since w w' =
      ([ (clock w, called (fetch (pair_request (adapter w))));
         (clock w, called json_pair);
         (clock w, called (fetch (lights_request (set_username u (adapter w)))));
         (clock w, called json_lights) ]
       ++ new ++
       [ (clock w, called storage_init);
         (clock w, called (storage_getItem KNOWN_BRIDGE_USERNAMES));
         (clock w, called (storage_setItem KNOWN_BRIDGE_USERNAMES
            (merged (set_username u (adapter w))
                    (storage w !! KNOWN_BRIDGE_USERNAMES)))) ])%list /\
    username (adapter w') = u /\
    storage w' = <[KNOWN_BRIDGE_USERNAMES :=
                    merged (set_username u (adapter w))
                           (storage w !! KNOWN_BRIDGE_USERNAMES)]> (storage w) /\
    tasks w' = tasks w /\ timers w' = timers w.
Proof.
  intros Hu Hr Htu Hwf.
  destruct w as [[un bid bip pg pe lt] st c ts tm tr]. cbn in Hu.
  unfold successful_pairing.
  set (W0 :=
    {| adapter := {| username := u; bridgeId := bid; bridgeIp := bip;
                     pairing := true; pairingEnd := c + timeoutSeconds * 1000;
                     lights := lt |};
       storage := st; clock := c; tasks := ts; timers := tm;
       trace := (c, called json_lights)
                :: (c, called (fetch (lights_request
                      {| username := u; bridgeId := bid; bridgeIp := bip;
                         pairing := true;
                         pairingEnd := c + timeoutSeconds * 1000;
                         lights := lt |})))
                :: (c, called json_pair)
                :: (c, called (fetch (pair_request
                      {| username := un; bridgeId := bid; bridgeIp := bip;
                         pairing := true;
                         pairingEnd := c + timeoutSeconds * 1000;
                         lights := lt |})))
                :: tr |}).
  destruct (loop_spec ls W0)
    as (w1 & r & new & Hrun & Hu1 & Hb1 & _ & _ & _ & Hs1 & Hc1 & Hta1 & Hti1 &
        Htr1 & Hnew & _ & _ & Hok).
  destruct (Hok Hwf) as [-> _].
  destruct w1 as [[un1 bid1 bip1 pg1 pe1 lt1] st1 c1 ts1 tm1 tr1].
  cbn in Hu1, Hb1, Hs1, Hc1, Hta1, Hti1, Htr1. subst.
  eexists. exists (rev new).
  split.
  { one_step ltac:(rewrite Hu; cbn).
    one_step idtac.
    one_step ltac:(rewrite Hr; cbn; rewrite Htu; cbn).
    one_step idtac.
    one_step ltac:(rewrite run_bind, run_catch, run_bind;
      match goal with
      | |- context [run (for_in ls discover_one) ?W] => change W with W0
      end; rewrite Hrun; cbn).
    one_step idtac.
    one_step idtac.
    one_step idtac.
    reflexivity. }
  split; [now apply Forall_rev|].
  split.
  { erewrite (since_app _ _ ([_; _; _] ++ new ++ [_; _; _; _])%list).
    - rewrite !rev_app_distr. cbn. rewrite <- ?app_assoc. reflexivity.
    - cbn. rewrite <- ?app_assoc. reflexivity. }
  cbn. split_and!; reflexivity.
Qed.


(** C3, as the code has it.  When an attempt succeeds, the username is
    set and the light list is requested and read first; the devices are
    created; only then is the store initialised, read and written.
    Discovery comes before the credential is persisted, not after. *)
Theorem credential_is_stored_after_discovery w timeoutSeconds reply u ls :
  truthy (username (adapter w)) = false ->
  read_reply reply = inr u ->
  truthy u = true ->
  Forall well_formed ls ->
  exists w' new,
    exec w (successful_pairing timeoutSeconds reply ls) = Some w' /\
    username (adapter w') = u /\
    Forall (fun e => is_device_added (snd e) = true) new /\
    since w w' =
      ([ (clock w, called (fetch (pair_request (adapter w))));
         (clock w, called json_pair);
         (clock w, called (fetch (lights_request (set_username u (adapter w)))));
         (clock w, called json_lights) ]
       ++ new ++
       [ (clock w, called storage_init);
         (clock w, called (storage_getItem KNOWN_BRIDGE_USERNAMES));
         (clock w, called (storage_setItem KNOWN_BRIDGE_USERNAMES
            (merged (set_username u (adapter w))
                    (storage w !! KNOWN_BRIDGE_USERNAMES)))) ])%list.
Proof.
  intros Hu Hr Htu Hwf.
  destruct (successful_attempt w timeoutSeconds reply u ls Hu Hr Htu Hwf)
    as (w' & new & Hexec & Hnew & Hsince & Hname & _).
  exists w', new. auto.
Qed.

(** C8. A successful attempt reads the stored table and writes it back
    with the entry of this bridge set to the new username: the table
    stored afterwards is the table stored before, or the empty table
    when there was none, with that one entry set.  The entry of every
    other bridge is what it was, and so is every other key of the
    store.  The read is issued in the same attempt, immediately before
    the write. *)
Theorem stored_table_is_merged w timeoutSeconds reply u ls :
  truthy (username (adapter w)) = false ->
  read_reply reply = inr u ->
  truthy u = true ->
  Forall well_formed ls ->
  let T := default ∅ (storage w !! KNOWN_BRIDGE_USERNAMES) in
  exists w' T' earlier,
    exec w (successful_pairing timeoutSeconds reply ls) = Some w' /\
    storage w' !! KNOWN_BRIDGE_USERNAMES = Some T' /\
    T' = <[bridgeId (adapter w) := u]> T /\
    T' !! bridgeId (adapter w) = Some u /\
    (forall b, b <> bridgeId (adapter w) -> T' !! b = T !! b) /\
    (forall key, key <> KNOWN_BRIDGE_USERNAMES ->
                 storage w' !! key = storage w !! key) /\
    map snd (since w w') =
      (earlier ++
       [ called (storage_getItem KNOWN_BRIDGE_USERNAMES);
         called (storage_setItem KNOWN_BRIDGE_USERNAMES T') ])%list /\
    List.filter is_write earlier = [].
Proof.
  intros Hu Hr Htu Hwf T.
  destruct (successful_attempt w timeoutSeconds reply u ls Hu Hr Htu Hwf)
    as (w' & new & Hexec & Hnew & Hsince & _ & Hstore & _).
  exists w', (<[bridgeId (adapter w) := u]> T).
  exists (map snd ([ (clock w, called (fetch (pair_request (adapter w))));
                     (clock w, called json_pair);
                     (clock w, called (fetch (lights_request
                                                (set_username u (adapter w)))));
                     (clock w, called json_lights) ]
                   ++ new ++ [ (clock w, called storage_init) ]))%list.
  split_and!.
  - exact Hexec.
  - rewrite Hstore. apply lookup_insert_eq.
  - reflexivity.
  - apply lookup_insert_eq.
  - intros b Hb. now apply lookup_insert_ne.
  - intros key Hkey. rewrite Hstore. now apply lookup_insert_ne.
  - rewrite Hsince. rewrite !map_app. cbn. rewrite <- !app_assoc. reflexivity.
  - rewrite !map_app, !List.filter_app. cbn. rewrite app_nil_r.
    clear -Hnew. induction Hnew as [|[t e] l He _ IH]; [reflexivity|].
    cbn in *. destruct e as [| [] |]; try discriminate. exact IH.
Qed.


(** ** Retrying until the deadline *)

Lemma attempt_starts w :
  truthy (username (adapter w)) = false ->
  start (body_of m_attemptPairing) w =
  set_tasks ({| waiting := fetch (pair_request (adapter w));
                cont := attempt_after_fetch |} :: tasks w)
            (record (called (fetch (pair_request (adapter w)))) w).
Proof. intros Hu. unfold start. cbn. rewrite Hu. reflexivity. Qed.

(** The retry decision of a running session. *)
Lemma retry_decision e w :
  pairing (adapter w) = true ->
  run (retry e) w =
  if clock w <? pairingEnd (adapter w)
  then (perform (setTimeout m_attemptPairing 500)
          (record (did (console_error e)) w), Finished (inr tt))
  else (record (did (console_error e)) w, Finished (inr tt)).
Proof.
  intros Hp. cbn. rewrite Hp. cbn.
  destruct (clock w <? pairingEnd (adapter w)); reflexivity.
Qed.



Lemma late_cons D t (e : Entry num) l :
  late D ((t, e) :: l) =
  ((if is_registration e && (D <=? t)%Z then 1 else 0) + late D l)%nat.
Proof. unfold late. cbn. now destruct (is_registration e && (D <=? t)). Qed.

Lemma timely_cons D t (e : Entry num) l :
  timely D l ->
  (forall cb d, e = did (setTimeout cb d) -> t < D) ->
  timely D ((t, e) :: l).
Proof.
  intros Hl He t' cb d [Heq|Hin]; [|now apply (Hl t' cb d)].
  injection Heq as -> ->. now apply (He cb d).
Qed.

(** A refusing event keeps a failing session a failing session. *)
Lemma session_step D w ev w' :
  session D w -> refuses ev = true -> step w ev = Some w' -> session D w'.
Proof.
  intros (Hu & Hp & He & Htm & Hph) Hr Hs.
  destruct w as [[un bid bip pg pe lt] st c ts tm tr].
  cbn in Hu, Hp, He, Htm. subst pg pe.
  destruct ev as [dt | i a | j | m]; cbn in Hr; try discriminate.
  - cbn in Hs. destruct (0 <=? dt) eqn:Hdt; [|discriminate].
    injection Hs as <-. apply Z.leb_le in Hdt.
    unfold session. cbn. split_and!; auto.
    destruct Hph as [Htm0 Hts Hl | due Hts Htm0 Hl | Hts Htm0 Hl]; cbn in *.
    + apply in_flight; cbn; auto. destruct Hl as [Hl|[Hl Hc]]; [now left|].
      right. split; [assumption|lia].
    + now apply (retry_scheduled _ _ due).
    + now apply stopped.
  - destruct Hph as [Htm0 Hts Hl | due Hts Htm0 Hl | Hts Htm0 Hl];
      cbn in Htm0, Hts, Hl; subst; cbn in Hs; try discriminate.
    assert (Hfail : forall e W,
      W = start (bind (retry e) (fun _ => Ret tt))
            {| adapter := {| username := un; bridgeId := bid; bridgeIp := bip;
                             pairing := true; pairingEnd := D; lights := lt |};
               storage := st; clock := c; tasks := []; timers := [];
               trace := tr |} ->
      session D W).
    { intros e W ->. unfold start. cbn.
      destruct (c <? D) eqn:Hc; cbn.
      - apply Z.ltb_lt in Hc.
        unfold session. cbn. split_and!; auto.
        + apply timely_cons; [|intros; assumption].
          apply timely_cons; [assumption|discriminate].
        + apply (retry_scheduled _ _ (c + 500)); cbn; auto.
          rewrite !late_cons. cbn. destruct Hl as [Hl|[Hl Hc']]; lia.
      - unfold session. cbn. split_and!; auto.
        + apply timely_cons; [assumption|discriminate].
        + apply stopped; cbn; auto. rewrite !late_cons. cbn.
          destruct Hl as [Hl|[Hl Hc']]; lia. }
    destruct Hts as [-> | ->]; destruct i as [|i]; cbn in Hs; try discriminate.
    + destruct a as [e| |reply|l|s|v]; cbn in Hr, Hs; try discriminate.
      * injection Hs as <-. now apply (Hfail e).
      * injection Hs as <-. unfold session. cbn. split_and!; auto.
        -- apply timely_cons; [assumption|discriminate].
        -- apply in_flight; cbn; auto.
    + destruct a as [e| |reply|l|s|v]; cbn in Hr, Hs; try discriminate.
      * injection Hs as <-. now apply (Hfail e).
      * destruct (read_reply reply) as [e|u] eqn:Hrr; [|discriminate].
        injection Hs as <-. now apply (Hfail e).
  - destruct Hph as [Htm0 Hts Hl | due Hts Htm0 Hl | Hts Htm0 Hl];
      cbn in Htm0, Hts, Hl; subst; cbn in Hs; try discriminate.
    destruct j as [|j]; cbn in Hs; [|discriminate].
    destruct (due <=? c) eqn:Hdue; [|discriminate].
    injection Hs as <-. rewrite attempt_starts by assumption.
    unfold session. cbn. split_and!; auto.
    + apply timely_cons; [assumption|discriminate].
    + apply in_flight; cbn; auto. rewrite late_cons, Hl. cbn.
      destruct (D <=? c) eqn:Hc; cbn; [right|now left].
      split; [reflexivity|now apply Z.leb_le].
Qed.

Lemma session_exec D evs : forall w w',
  session D w -> forallb refuses evs = true -> exec w evs = Some w' ->
  session D w'.
Proof.
  induction evs as [|ev evs IH]; intros w w' Hs Hr He; cbn in *.
  - now injection He as <-.
  - apply andb_prop in Hr as [Hr1 Hr2].
    destruct (step w ev) as [w1|] eqn:Hstep; [|discriminate].
    apply (IH w1 w'); auto. now apply (session_step D w ev).
Qed.

Lemma session_phase_late D w : phase D w -> (late D (trace w) <= 1)%nat.
Proof. intros [_ _ [Hl|[Hl _]] | due _ _ Hl | _ _ Hl]; lia. Qed.

(** ** The history is only written

    No program reads the trace: a run from a world with another
    history does the same and records the same. *)

Lemma run_rebase {A : Type} (p : prog A) : forall w,
  exists new,
    trace (run p w).1 = (new ++ trace w)%list /\
    forall tr,
      run p (set_trace tr w) =
      (set_trace (new ++ tr) (run p w).1, (run p w).2).
Proof.
  induction p as [A x|A e|A k IH|A a k IH|A k IH|A e k IH|A q IHq k IHk|A c k IH];
    intros w; cbn.
  - now exists [].
  - now exists [].
  - apply (IH (adapter w) w).
  - destruct (IH (set_adapter a w)) as (new & Ht & Hr).
    exists new. split; [exact Ht|]. intros tr. apply (Hr tr).
  - apply (IH (clock w) w).
  - destruct (IH (perform e w)) as (new & Ht & Hr).
    exists (new ++ [(clock w, did e)])%list. split.
    + rewrite Ht, <- app_assoc. now destruct e.
    + intros tr. rewrite <- app_assoc. cbn. rewrite <- (Hr ((clock w, did e) :: tr)).
      now destruct e.
  - destruct (IHq w) as (new1 & Ht1 & Hr1).
    destruct (run q w) as [w1 s] eqn:Eq. cbn in Ht1, Hr1.
    assert (Hp : exists new2,
              trace (park s w1) = (new2 ++ trace w)%list /\
              forall tr, park s (set_trace (new1 ++ tr) w1) =
                         set_trace (new2 ++ tr) (park s w1)).
    { destruct s as [[e|[]]|c k']; cbn.
      - exists ((clock w1, unhandled e) :: new1). split; [now rewrite Ht1|].
        reflexivity.
      - exists new1. split; [exact Ht1|]. reflexivity.
      - exists new1. split; [exact Ht1|]. reflexivity. }
    destruct Hp as (new2 & Ht2 & Hr2).
    destruct (IHk (park s w1)) as (new3 & Ht3 & Hr3).
    exists (new3 ++ new2)%list. split.
    + now rewrite Ht3, Ht2, app_assoc.
    + intros tr. rewrite Hr1, Hr2, <- app_assoc. apply Hr3.
  - exists [(clock w, called c)]. split; reflexivity.
Qed.

Lemma start_rebase (p : prog unit) w :
  exists new,
    trace (start p w) = (new ++ trace w)%list /\
    forall tr, start p (set_trace tr w) = set_trace (new ++ tr) (start p w).
Proof.
  unfold start. destruct (run_rebase p w) as (new & Ht & Hr).
  destruct (run p w) as [w1 s] eqn:E. cbn in Ht, Hr.
  destruct s as [[e|[]]|c k]; cbn.
  - exists ((clock w1, unhandled e) :: new). split; [now rewrite Ht|].
    intros tr. now rewrite Hr.
  - exists new. split; [exact Ht|]. intros tr. now rewrite Hr.
  - exists new. split; [exact Ht|]. intros tr. now rewrite Hr.
Qed.

Lemma step_rebase w ev w' :
  step w ev = Some w' ->
  exists new,
    trace w' = (new ++ trace w)%list /\
    forall tr, step (set_trace tr w) ev = Some (set_trace (new ++ tr) w').
Proof.
  intros Hs. destruct ev as [dt|i ans|j|m]; cbn in Hs.
  - destruct (0 <=? dt) eqn:E; [|discriminate]. injection Hs as <-.
    exists []. split; [reflexivity|]. intros tr. cbn. now rewrite E.
  - destruct (tasks w !! i) as [t|] eqn:Et; [|discriminate].
    destruct (settles w (waiting t) ans) as [[w1 r]|] eqn:Es; [|discriminate].
    injection Hs as <-.
    assert (Hw1 : trace w1 = trace w /\
                  forall tr, settles (set_trace tr w) (waiting t) ans =
                             Some (set_trace tr w1, r)).
    { destruct ans, (waiting t); cbn in Es; try discriminate;
        injection Es as <- <-; split; reflexivity. }
    destruct Hw1 as [Ht1 Hs1].
    destruct (start_rebase (cont t r) (set_tasks (delete i (tasks w1)) w1))
      as (new & Ht & Hr).
    exists new. split; [now rewrite Ht; cbn; rewrite Ht1|].
    intros tr. cbn. rewrite Et, Hs1. cbn. f_equal. apply (Hr tr).
  - destruct (timers w !! j) as [[due cb]|] eqn:Et; [|discriminate].
    destruct (due <=? clock w) eqn:E; [|discriminate]. injection Hs as <-.
    destruct (start_rebase (body_of cb) (set_timers (delete j (timers w)) w))
      as (new & Ht & Hr).
    exists new. split; [exact Ht|].
    intros tr. cbn. rewrite Et, E. f_equal. apply (Hr tr).
  - injection Hs as <-.
    destruct (start_rebase (body_of m) w) as (new & Ht & Hr).
    exists new. split; [exact Ht|]. intros tr. cbn. f_equal. apply Hr.
Qed.

Lemma exec_rebase evs : forall w w',
  exec w evs = Some w' ->
  exists new,
    trace w' = (new ++ trace w)%list /\
    forall tr, exec (set_trace tr w) evs = Some (set_trace (new ++ tr) w').
Proof.
  induction evs as [|ev evs IH]; intros w w' He; cbn in He.
  - injection He as <-. exists []. split; [reflexivity|].
    intros tr. reflexivity.
  - destruct (step w ev) as [w1|] eqn:Es; [|discriminate].
    destruct (step_rebase _ _ _ Es) as (new1 & Ht1 & Hr1).
    destruct (IH _ _ He) as (new2 & Ht2 & Hr2).
    exists (new2 ++ new1)%list. split; [now rewrite Ht2, Ht1, app_assoc|].
    intros tr. cbn. rewrite Hr1, <- app_assoc. apply Hr2.
Qed.

(** A failing session from the booted world. *)
Lemma failing_session_from_boot
    a st t0 timeoutSeconds evs w :
  truthy (username a) = false ->
  forallb refuses evs = true ->
  exec (boot a st t0) (host (m_startPairing timeoutSeconds) :: evs) = Some w ->
  pairingEnd (adapter w) = t0 + timeoutSeconds * 1000 /\
  timely (t0 + timeoutSeconds * 1000) (trace w) /\
  (late (t0 + timeoutSeconds * 1000) (trace w) <= 1)%nat.
Proof.
  intros Hu Hr He.
  assert (Hs : session (t0 + timeoutSeconds * 1000) w).
  { change (exec (boot a st t0) (host (m_startPairing timeoutSeconds) :: evs))
      with (exec (start (startPairing timeoutSeconds) (boot a st t0)) evs) in He.
    refine (session_exec _ evs _ w _ Hr He).
    unfold start. cbn. rewrite Hu. cbn.
    unfold session. cbn. split_and!; auto.
    - intros t cb d [Heq|[]]. discriminate.
    - apply in_flight; cbn; auto. rewrite late_cons. cbn.
      destruct (t0 + timeoutSeconds * 1000 <=? t0) eqn:Hc;
        [right|left; reflexivity].
      split; [reflexivity|now apply Z.leb_le]. }
  destruct Hs as (_ & _ & He' & Htm & Hph).
  split; [assumption|]. split; [assumption|]. now apply session_phase_late.
Qed.

(** A world in which nothing is pending is the booted world with a
    history. *)
Lemma idle_is_booted w :
  tasks w = [] -> timers w = [] ->
  set_trace [] w = boot (adapter w) (storage w) (clock w).
Proof. destruct w. cbn. now intros -> ->. Qed.

(** C2, as the code has it.  A session is started at time [t0] on an
    adapter that has no username and nothing pending, no call and no
    timer; every attempt fails, and the host calls no other method
    while it runs.  The deadline is [t0] plus the timeout in
    milliseconds, and every retry is scheduled at a time before the
    deadline.  A retry scheduled before the deadline still fires 500 ms
    later, so a registration request can be issued at or after the
    deadline, but at most one: when it fails nothing is scheduled. *)
Theorem retries_are_scheduled_before_the_deadline w timeoutSeconds evs w' :
  truthy (username (adapter w)) = false ->
  tasks w = [] ->
  timers w = [] ->
  forallb refuses evs = true ->
  exec w (host (m_startPairing timeoutSeconds) :: evs) = Some w' ->
  pairingEnd (adapter w') = clock w + timeoutSeconds * 1000 /\
  timely (clock w + timeoutSeconds * 1000) (since w w') /\
  (late (clock w + timeoutSeconds * 1000) (since w w') <= 1)%nat.
Proof.
  intros Hu Hts Htm Hr He.
  destruct (exec_rebase _ _ _ He) as (new & Ht & Hb).
  specialize (Hb []). rewrite (idle_is_booted w Hts Htm), app_nil_r in Hb.
  destruct (failing_session_from_boot _ _ _ _ _ _ Hu Hr Hb) as (H1 & H2 & H3).
  cbn in H1, H2, H3. rewrite (since_app _ _ _ Ht).
  split; [exact H1|]. split.
  - intros t cb d Hin. apply (H2 t cb d). now apply in_rev.
  - unfold late in *. now rewrite filter_rev, length_rev.
Qed.


(** A run that goes through reaches the world it computes. *)
Lemma exec_default w evs d :
  match exec w evs with Some _ => true | None => false end = true ->
  exec w evs = Some (default d (exec w evs)).
Proof. destruct (exec w evs); [reflexivity|discriminate]. Qed.

(** ** The constructor *)

(** X1.  Without a usable username in the store the constructor logs why and
    leaves the adapter as constructed: no request goes to the bridge,
    nothing is pending, and the username stays [null].  The reason is
    "no known bridges" when nothing is stored under the key, and "no
    known username" when the table has no entry for this bridge or an
    empty one. *)
Theorem constructor_without_username_stays_idle id ip s t :
  match s !! KNOWN_BRIDGE_USERNAMES with
  | Some known => truthy (default None (known !! id)) = false
  | None => True
  end ->
  exists w',
    exec (construct id ip s t) [settle 0 Resolved; settle 0 Resolved]
      = Some w' /\
    map snd (trace w') =
      [ did (console_error
               match s !! KNOWN_BRIDGE_USERNAMES with
               | Some _ => "no known username"
               | None => "no known bridges"
               end);
        called (storage_getItem KNOWN_BRIDGE_USERNAMES);
        called storage_init;
        did addAdapter ] /\
    adapter w' = new_PhilipsHueAdapter id ip /\
    storage w' = s /\ tasks w' = [] /\ timers w' = [].
Proof.
  intros Hs.
  destruct (s !! KNOWN_BRIDGE_USERNAMES) as [known|] eqn:Hk.
  - eexists. split.
    { unfold construct, boot, new_PhilipsHueAdapter. one_step idtac.
      one_step ltac:(rewrite Hk; cbn; rewrite Hs; cbn). reflexivity. }
    split_and!; reflexivity.
  - eexists. split.
    { unfold construct, boot, new_PhilipsHueAdapter. one_step idtac.
      one_step ltac:(rewrite Hk; cbn). reflexivity. }
    split_and!; reflexivity.
Qed.

(** X2.  When the store cannot be initialised or read, the constructor logs
    the error and leaves the adapter as constructed; the rejection is
    handled, and no request goes to the bridge. *)
Theorem constructor_survives_storage_failure id ip s t e :
  (exists w',
     exec (construct id ip s t) [settle 0 (Rejected e)] = Some w' /\
     map snd (trace w') =
       [did (console_error e); called storage_init; did addAdapter] /\
     adapter w' = new_PhilipsHueAdapter id ip /\
     tasks w' = [] /\ timers w' = []) /\
  (exists w',
     exec (construct id ip s t) [settle 0 Resolved; settle 0 (Rejected e)]
       = Some w' /\
     map snd (trace w') =
       [ did (console_error e);
         called (storage_getItem KNOWN_BRIDGE_USERNAMES);
         called storage_init; did addAdapter ] /\
     adapter w' = new_PhilipsHueAdapter id ip /\
     tasks w' = [] /\ timers w' = []).
Proof.
  split; eexists.
  - split.
    { unfold construct, boot, new_PhilipsHueAdapter. one_step idtac.
      reflexivity. }
    split_and!; reflexivity.
  - split.
    { unfold construct, boot, new_PhilipsHueAdapter. one_step idtac.
      one_step idtac. reflexivity. }
    split_and!; reflexivity.
Qed.

(** ** Attempts that fail *)

(** X4.  An attempt of a running session that fails before the deadline is
    retried: whether the request fails, the response cannot be decoded,
    or the bridge refuses, a timer for [attemptPairing] is armed 500 ms
    after the failure and nothing else is left pending.  The timer
    cannot fire earlier, and when it fires the adapter registers
    again. *)
Theorem failed_attempt_is_retried_after_500_ms w T d e reply fs :
  truthy (username (adapter w)) = false ->
  0 <= d < T * 1000 ->
  fs = [settle 0 (Rejected e)] \/
  fs = [settle 0 Resolved; settle 0 (Rejected e)] \/
  fs = [settle 0 Resolved; settle 0 (PairReply reply)] /\
  read_reply reply = inl e ->
  exists w1,
    exec w (host (m_startPairing T) :: tick d :: fs) = Some w1 /\
    timers w1 = (clock w + d + 500, m_attemptPairing) :: timers w /\
    tasks w1 = tasks w /\
    head (trace w1) = Some (clock w + d, did (setTimeout m_attemptPairing 500)) /\
    (forall dt, 0 <= dt < 500 -> exec w1 [tick dt; fire 0] = None) /\
    (forall dt, 500 <= dt ->
       exists w2,
         exec w1 [tick dt; fire 0] = Some w2 /\
         since w1 w2 =
           [(clock w + d + dt, called (fetch (pair_request (adapter w))))] /\
         timers w2 = timers w).
Proof.
  intros Hu [Hd0 Hd] Hfs.
  assert (Hdb : (0 <=? d) = true) by now apply Z.leb_le.
  assert (Hlt : (clock w + d <? clock w + T * 1000) = true)
    by (apply Z.ltb_lt; lia).
  assert (Hlate : forall w1,
    timers w1 = (clock w + d + 500, m_attemptPairing) :: timers w ->
    clock w1 = clock w + d ->
    username (adapter w1) = username (adapter w) ->
    bridgeIp (adapter w1) = bridgeIp (adapter w) ->
    (forall dt, 0 <= dt < 500 -> exec w1 [tick dt; fire 0] = None) /\
    (forall dt, 500 <= dt ->
       exists w2,
         exec w1 [tick dt; fire 0] = Some w2 /\
         since w1 w2 =
           [(clock w + d + dt, called (fetch (pair_request (adapter w))))] /\
         timers w2 = timers w)).
  { intros w1 Ht Hc Hu1 Hip. split.
    - intros dt [H0 H1]. cbn. apply Z.leb_le in H0. rewrite H0. cbn.
      rewrite Ht. cbn. rewrite Hc.
      destruct (clock w + d + 500 <=? clock w + d + dt) eqn:E;
        [apply Z.leb_le in E; lia | reflexivity].
    - intros dt H5.
      assert (H0 : (0 <=? dt) = true) by (apply Z.leb_le; lia).
      assert (E : (clock w + d + 500 <=? clock w + d + dt) = true)
        by (apply Z.leb_le; lia).
      eexists. split.
      { one_step ltac:(rewrite H0).
        one_step ltac:(rewrite Ht; cbn; rewrite Hc, E; cbn; rewrite Hu1, Hu; cbn).
        reflexivity. }
      split.
      + apply (since_app _ _ [_]). cbn.
        unfold pair_request. now rewrite Hip.
      + reflexivity. }
  destruct Hfs as [-> | [-> | [-> Hr]]].
  - eexists. split.
    { one_step ltac:(rewrite Hu; cbn). one_step ltac:(rewrite Hdb).
      one_step ltac:(rewrite Hlt; cbn). reflexivity. }
    split; [reflexivity|]. split; [reflexivity|]. split; [reflexivity|].
    now apply Hlate.
  - eexists. split.
    { one_step ltac:(rewrite Hu; cbn). one_step ltac:(rewrite Hdb).
      one_step idtac. one_step ltac:(rewrite Hlt; cbn). reflexivity. }
    split; [reflexivity|]. split; [reflexivity|]. split; [reflexivity|].
    now apply Hlate.
  - eexists. split.
    { one_step ltac:(rewrite Hu; cbn). one_step ltac:(rewrite Hdb).
      one_step idtac. one_step ltac:(rewrite Hr; cbn; rewrite Hlt; cbn).
      reflexivity. }
    split; [reflexivity|]. split; [reflexivity|]. split; [reflexivity|].
    now apply Hlate.
Qed.

(** ** The stages of an attempt, one event at a time *)

Arguments start : simpl never.
Arguments failed : simpl never.
Arguments attempt_after_fetch : simpl never.
Arguments attempt_after_json : simpl never.
Arguments attempt_after_lights_fetch : simpl never.
Arguments attempt_after_lights_json : simpl never.

(** One event, the chain it resumes left folded. *)
Ltac next tac :=
  eapply exec_step; [ unfold step; cbn; tac; reflexivity | ].

Lemma failed_retries e w :
  pairing (adapter w) = true ->
  (clock w <? pairingEnd (adapter w)) = true ->
  failed e w =
  perform (setTimeout m_attemptPairing 500) (record (did (console_error e)) w).
Proof.
  intros Hp Hc. unfold failed, start. cbn. rewrite Hp. cbn. rewrite Hc.
  reflexivity.
Qed.

Lemma failed_stops e w :
  pairing (adapter w) = false \/
  (clock w <? pairingEnd (adapter w)) = false ->
  failed e w = record (did (console_error e)) w.
Proof.
  intros H. unfold failed, start. cbn.
  destruct (pairing (adapter w)); [|reflexivity]. cbn.
  destruct H as [H|H]; [discriminate|]. now rewrite H.
Qed.

Lemma startPairing_starts T w :
  truthy (username (adapter w)) = false ->
  start (body_of (m_startPairing T)) w =
  set_tasks ({| waiting := fetch (pair_request (adapter w));
                cont := attempt_after_fetch |} :: tasks w)
    (record (called (fetch (pair_request (adapter w))))
       (set_adapter (set_pairingEnd (clock w + T * 1000)
                       (set_pairing true (adapter w))) w)).
Proof. intros Hu. unfold start. cbn. rewrite Hu. reflexivity. Qed.

Lemma attempt_resumes w :
  truthy (username (adapter w)) = true ->
  start (body_of m_attemptPairing) w =
  set_tasks ({| waiting := fetch (lights_request (adapter w));
                cont := attempt_after_lights_fetch |} :: tasks w)
    (record (called (fetch (lights_request (adapter w)))) w).
Proof.
  intros Hu. unfold start. cbn. rewrite Hu. cbn. rewrite Hu. cbn.
  destruct w as [[un bid bip pg pe lt] st c ts tm tr]. reflexivity.
Qed.

Lemma after_fetch_resolved w :
  start (attempt_after_fetch Resolved) w =
  set_tasks ({| waiting := json_pair; cont := attempt_after_json |} :: tasks w)
    (record (called json_pair) w).
Proof. reflexivity. Qed.

Lemma after_fetch_rejected e w :
  start (attempt_after_fetch (Rejected e)) w = failed e w.
Proof. reflexivity. Qed.

Lemma after_json_rejected e w :
  start (attempt_after_json (Rejected e)) w = failed e w.
Proof. reflexivity. Qed.

Lemma after_json_refused reply e w :
  read_reply reply = inl e ->
  start (attempt_after_json (PairReply reply)) w = failed e w.
Proof.
  intros Hr. unfold failed, start, attempt_after_json. cbn. now rewrite Hr.
Qed.

Lemma after_json_accepted reply u w :
  read_reply reply = inr u ->
  truthy u = true ->
  start (attempt_after_json (PairReply reply)) w =
  set_tasks ({| waiting := fetch (lights_request (set_username u (adapter w)));
                cont := attempt_after_lights_fetch |} :: tasks w)
    (record (called (fetch (lights_request (set_username u (adapter w)))))
       (set_adapter (set_username u (adapter w)) w)).
Proof.
  intros Hr Hu. unfold start, attempt_after_json. cbn. rewrite Hr. cbn.
  rewrite Hu. reflexivity.
Qed.

Lemma after_json_empty reply u w :
  read_reply reply = inr u ->
  truthy u = false ->
  start (attempt_after_json (PairReply reply)) w =
  failed "missing username" (set_adapter (set_username u (adapter w)) w).
Proof.
  intros Hr Hu. unfold failed, start, attempt_after_json. cbn. rewrite Hr. cbn.
  rewrite Hu. reflexivity.
Qed.

Lemma after_lights_fetch_resolved w :
  start (attempt_after_lights_fetch Resolved) w =
  set_tasks ({| waiting := json_lights; cont := attempt_after_lights_json |}
             :: tasks w)
    (record (called json_lights) w).
Proof. reflexivity. Qed.

Lemma after_lights_fetch_rejected e w :
  start (attempt_after_lights_fetch (Rejected e)) w = failed e w.
Proof. reflexivity. Qed.

Lemma after_lights_json_rejected e w :
  start (attempt_after_lights_json (Rejected e)) w = failed e w.
Proof. reflexivity. Qed.

Arguments body_of : simpl never.



(** ** The color of a light, there and back *)


(** ** Values the bridge never sees *)

(** X11.  A color the [color] package cannot read is cached all the same and
    the change is reported to the host, but nothing is sent to the
    bridge: [Color] throws after the promise of [setValue] was
    resolved, and the exception is dropped.  While such a color is
    cached, switching the light on or off is not sent to the bridge
    either. *)
Theorem unreadable_color_stops_the_pushes w light d p_on p_color v :
  lights (adapter w) !! light = Some d ->
  properties d !! "on" = Some p_on -> prop_name p_on = "on" ->
  properties d !! "color" = Some p_color -> prop_name p_color = "color" ->
  Color_of v = None ->
  exists w1,
    step w (host (m_setValue light "color" v)) = Some w1 /\
    cached (adapter w1) light "color" = Some v /\
    since w w1 =
      [(clock w,
        did (propertyChanged (lightId d) (setCachedValue v p_color)))] /\
    tasks w1 = tasks w /\
    forall b, exists w2,
      step w1 (host (m_setValue light "on" b)) = Some w2 /\
      cached (adapter w2) light "on" = Some b /\
      cached (adapter w2) light "color" = Some v /\
      since w1 w2 =
        [(clock w, did (propertyChanged (lightId d) (setCachedValue b p_on)))] /\
      tasks w2 = tasks w.
Proof.
  intros Hd Hon Hnon Hcolor Hncolor Hv.
  eexists. split.
  { unfold step, body_of, start, park. cbn. rewrite Hd, Hcolor. cbn.
    rewrite Hncolor. cbn. unfold properties_get_value, new_Color. cbn.
    rewrite lookup_insert_eq. cbn. rewrite Hv. cbn. reflexivity. }
  split.
  { unfold cached. cbn. rewrite lookup_insert_eq. cbn.
    now rewrite lookup_insert_eq. }
  split; [now apply (since_app _ _ [_])|].
  split; [reflexivity|].
  intros b. eexists. split.
  { unfold step, body_of, start, park. cbn. rewrite lookup_insert_eq. cbn.
    rewrite lookup_insert_ne by discriminate. rewrite Hon. cbn.
    rewrite Hnon. cbn. unfold properties_get_value, new_Color. cbn.
    rewrite lookup_insert_ne by discriminate. rewrite lookup_insert_eq. cbn.
    rewrite Hv. cbn. reflexivity. }
  split.
  { unfold cached. cbn. rewrite lookup_insert_eq. cbn.
    now rewrite lookup_insert_eq. }
  split.
  { unfold cached. cbn. rewrite lookup_insert_eq. cbn.
    rewrite lookup_insert_ne by discriminate. now rewrite lookup_insert_eq. }
  split; [now apply (since_app _ _ [_])|reflexivity].
Qed.

(** What [notifyPropertyChanged] leaves alone, whichever branch it
    takes. *)
Lemma notifyPropertyChanged_frame d p w :
  adapter (run (notifyPropertyChanged d p) w).1 = adapter w /\
  storage (run (notifyPropertyChanged d p) w).1 = storage w /\
  clock (run (notifyPropertyChanged d p) w).1 = clock w /\
  timers (run (notifyPropertyChanged d p) w).1 = timers w /\
  exists r, (run (notifyPropertyChanged d p) w).2 = Finished r.
Proof.
  unfold notifyPropertyChanged, properties_get_value, new_Color. cbn.
  repeat (case_match; cbn); split_and!; try reflexivity; eauto.
Qed.

#[local] Arguments notifyPropertyChanged : simpl never.

(** X12.  [setValue] changes the one value it is called for and nothing else
    about the adapter: every other property of the light and every
    other light keep their cached values, and the username, the pairing
    flag, the deadline, the store and the timers stay as they are. *)
Theorem setValue_changes_one_value w light name v old :
  cached (adapter w) light name = Some old ->
  exists w',
    step w (host (m_setValue light name v)) = Some w' /\
    cached (adapter w') light name = Some v /\
    (forall l n, l <> light \/ n <> name ->
       cached (adapter w') l n = cached (adapter w) l n) /\
    username (adapter w') = username (adapter w) /\
    pairing (adapter w') = pairing (adapter w) /\
    pairingEnd (adapter w') = pairingEnd (adapter w) /\
    storage w' = storage w /\ timers w' = timers w.
Proof.
  unfold cached. intros Hc.
  destruct (lights (adapter w) !! light) as [d|] eqn:Hd; [|discriminate].
  destruct (properties d !! name) as [p|] eqn:Hp; [|discriminate].
  eexists. split; [reflexivity|].
  unfold body_of, start, setValue. cbn. rewrite Hd, Hp. cbn.
  rewrite !run_bind, run_catch.
  match goal with
  | |- context [run (notifyPropertyChanged ?d' ?p') ?W] =>
    destruct (notifyPropertyChanged_frame d' p' W) as (Ea & Es & _ & Et & r & Er);
    destruct (run (notifyPropertyChanged d' p') W) as [w1 s]
  end.
  cbn in Ea, Es, Et, Er. subst s. destruct r as [e|[]]; cbn; rewrite Ea; cbn.
  all: split; [rewrite lookup_insert_eq; cbn; now rewrite lookup_insert_eq|].
  all: split; [|now split_and!].
  all: intros l n Hne; destruct (decide (l = light)) as [->|Hl];
    [rewrite lookup_insert_eq, Hd; cbn;
     destruct Hne as [Hne|Hne]; [contradiction|];
     now rewrite lookup_insert_ne by congruence
    |now rewrite lookup_insert_ne by congruence].
Qed.

(** X19.  The promise of [setValue] on an existing property resolves to the
    value just set and is never rejected, not even when
    [notifyPropertyChanged] throws: the promise is resolved before the
    device is notified. *)
Theorem setValue_resolves_to_the_value w light name v old :
  cached (adapter w) light name = Some old ->
  exists w', run (setValue light name v) w = (w', Finished (inr v)).
Proof.
  unfold cached. intros Hc.
  destruct (lights (adapter w) !! light) as [d|] eqn:Hd; [|discriminate].
  destruct (properties d !! name) as [p|] eqn:Hp; [|discriminate].
  unfold setValue. cbn. rewrite Hd, Hp. cbn.
  rewrite run_bind, run_catch.
  match goal with
  | |- context [run (notifyPropertyChanged ?d' ?p') ?W] =>
    destruct (notifyPropertyChanged_frame d' p' W) as (_ & _ & _ & _ & r & Er);
    destruct (run (notifyPropertyChanged d' p') W) as [w1 s]
  end.
  cbn in Er. subst s. destruct r as [e|[]]; cbn; eauto.
Qed.

(** ** Sessions that overlap *)

Lemma cancelPairing_starts w :
  start (body_of m_cancelPairing) w =
  set_adapter (set_pairing false (adapter w)) w.
Proof. reflexivity. Qed.

(** X7.  Cancelling does not stop the attempt that is in flight.  When the
    bridge accepts the registration after [cancelPairing], the adapter
    takes the username and goes on to discover the lights, with the
    pairing flag off; only the retries are gone. *)
Theorem cancelling_keeps_the_attempt_in_flight w T reply u :
  truthy (username (adapter w)) = false ->
  read_reply reply = inr u ->
  truthy u = true ->
  exists w1,
    exec w [ host (m_startPairing T); host m_cancelPairing;
             settle 0 Resolved; settle 0 (PairReply reply) ] = Some w1 /\
    pairing (adapter w1) = false /\
    username (adapter w1) = u /\
    since w w1 =
      [ (clock w, called (fetch (pair_request (adapter w))));
        (clock w, called json_pair);
        (clock w,
         called (fetch (lights_request (set_username u (adapter w))))) ] /\
    timers w1 = timers w.
Proof.
  intros Hu Hr Htu.
  eexists. split.
  { next ltac:(rewrite startPairing_starts by assumption).
    next ltac:(rewrite cancelPairing_starts).
    next ltac:(rewrite after_fetch_resolved).
    next ltac:(rewrite (after_json_accepted reply u) by assumption).
    reflexivity. }
  split; [reflexivity|]. split; [reflexivity|].
  split; [|reflexivity].
  apply (since_app _ _ [_; _; _]). cbn. unfold lights_request. cbn.
  reflexivity.
Qed.

(** X8.  [startPairing] does not look whether an attempt is already in
    flight: called twice, it leaves two registration requests pending,
    and the deadline is that of the second call. *)
Theorem second_startPairing_registers_again w T1 T2 :
  truthy (username (adapter w)) = false ->
  exists w1,
    exec w [host (m_startPairing T1); host (m_startPairing T2)] = Some w1 /\
    since w w1 =
      [ (clock w, called (fetch (pair_request (adapter w))));
        (clock w, called (fetch (pair_request (adapter w)))) ] /\
    map waiting (tasks w1) =
      (fetch (pair_request (adapter w)) :: fetch (pair_request (adapter w))
       :: map waiting (tasks w))%list /\
    pairingEnd (adapter w1) = clock w + T2 * 1000.
Proof.
  intros Hu.
  eexists. split.
  { next ltac:(rewrite startPairing_starts by assumption).
    next ltac:(rewrite startPairing_starts by assumption).
    reflexivity. }
  split; [now apply (since_app _ _ [_; _])|].
  split; reflexivity.
Qed.

(** ** A light without a state *)

(** The loop stops at the first light it has to create and cannot: the
    lights before it are handled as if the list ended there. *)
Lemma loop_stops ls1 k bad ls2 : forall w,
  Forall well_formed ls1 ->
  ~ In k (map fst ls1) ->
  tracked (lights (adapter w)) k = false ->
  light_state bad = None ->
  exists w1 e,
    run (for_in ls1 discover_one) w = (w1, Finished (inr tt)) /\
    run (for_in (ls1 ++ (k, bad) :: ls2) discover_one) w =
      (w1, Finished (inl e)) /\
    tracked (lights (adapter w1)) k = false.
Proof.
  induction ls1 as [|[k1 v1] ls1 IH]; intros w Hwf Hk Ht Hbad.
  { eexists w, _. split; [reflexivity|]. split; [|exact Ht].
    cbn [app]. rewrite run_loop_cons, Ht, Hbad. reflexivity. }
  apply Forall_cons in Hwf as [[st Hst] Hwf]. cbn in Hst.
  assert (Hne : k1 <> k) by (intros ->; apply Hk; now left).
  assert (Hk' : ~ In k (map fst ls1)) by (intros Hin; apply Hk; now right).
  cbn [app]. rewrite !run_loop_cons, Hst.
  destruct (tracked (lights (adapter w)) k1).
  - now apply IH.
  - apply IH; try assumption. cbn. rewrite tracked_insert, Ht.
    now destruct (String.eqb_spec k1 k).
Qed.

(** X10.  A listed light without a [state] that is not tracked yet aborts the
    discovery.  The lights listed before it are created and announced
    as if the list ended there, the lights listed after it are not
    looked at, and the promise of [discoverLights] is rejected; called
    by the host, nobody handles the rejection. *)
Theorem light_without_state_aborts_discovery w ls1 k bad ls2 :
  truthy (username (adapter w)) = true ->
  Forall well_formed ls1 ->
  ~ In k (map fst ls1) ->
  tracked (lights (adapter w)) k = false ->
  light_state bad = None ->
  exists w1 w2 e,
    exec w (discovery ls1) = Some w1 /\
    exec w (discovery (ls1 ++ (k, bad) :: ls2)) = Some w2 /\
    adapter w2 = adapter w1 /\
    trace w2 = (clock w, unhandled e) :: trace w1 /\
    tasks w2 = tasks w1 /\
    tracked (lights (adapter w2)) k = false.
Proof.
  intros Hu Hwf Hk Ht Hbad.
  destruct (discovery_spec w ls1 Hu)
    as (W & w' & r & A1 & A2 & A3 & A4 & A5 & A6 & Hrun & Hexec).
  destruct (discovery_spec w (ls1 ++ (k, bad) :: ls2) Hu)
    as (W2 & w2' & r2 & B1 & B2 & B3 & B4 & B5 & B6 & Hrun2 & Hexec2).
  assert (EW : W2 = W).
  { destruct W, W2. cbn in *. congruence. }
  subst W2.
  destruct (loop_stops ls1 k bad ls2 W Hwf Hk) as (w1 & e & R1 & R2 & Hk1);
    [now rewrite A1|exact Hbad|].
  rewrite R1 in Hrun. injection Hrun as <- <-.
  rewrite R2 in Hrun2. injection Hrun2 as <- <-.
  destruct (loop_spec ls1 W) as (w'' & r' & new & Hrun' & _ & _ & _ & _ &
    _ & _ & Hc' & _).
  rewrite R1 in Hrun'. injection Hrun' as <- <-.
  exists (park (Finished (inr tt)) w1), (park (Finished (inl e)) w1), e.
  split; [exact Hexec|]. split; [exact Hexec2|]. cbn.
  split; [reflexivity|]. split; [now rewrite Hc', A3|].
  split; [reflexivity|exact Hk1].
Qed.

(** ** A stored username and an unreachable bridge *)

(** X3.  When the constructor finds the username in the store and the bridge
    then fails to list its lights, nobody hears of it: the promise of
    [discoverLights] is dropped inside the [then], so the [catch] of the
    constructor does not log the failure, the rejection stays
    unhandled, and nothing is scheduled to try again.  The username is
    kept and no light is tracked. *)
Theorem startup_discovery_failure_is_unhandled id ip s t (known : Table) u e :
  s !! KNOWN_BRIDGE_USERNAMES = Some known ->
  known !! id = Some u ->
  truthy u = true ->
  exists w',
    exec (construct id ip s t)
      [settle 0 Resolved; settle 0 Resolved; settle 0 (Rejected e)]
      = Some w' /\
    map snd (trace w') =
      [ unhandled e;
        called (fetch (lights_request
                         (set_username u (new_PhilipsHueAdapter id ip))));
        called (storage_getItem KNOWN_BRIDGE_USERNAMES);
        called storage_init;
        did addAdapter ] /\
    username (adapter w') = u /\
    lights (adapter w') = ∅ /\
    tasks w' = [] /\ timers w' = [].
Proof.
  intros Hs Hk Hu. eexists. split.
  { unfold construct, boot, new_PhilipsHueAdapter. one_step idtac.
    one_step ltac:(rewrite Hs; cbn; rewrite Hk; cbn; rewrite Hu; cbn;
                   rewrite Hu; cbn).
    one_step idtac.
    reflexivity. }
  split_and!; reflexivity.
Qed.

(** ** The devices of a discovery *)

Lemma with_devices_spec (devs : list (PhilipsHueDevice num)) : forall w,
  trace (with_devices devs w) =
    (rev (map (fun d => (clock w, did (handleDeviceAdded d))) devs)
     ++ trace w)%list /\
  lights (adapter (with_devices devs w)) =
    foldl (fun m d => <[lightId d := d]> m) (lights (adapter w)) devs /\
  username (adapter (with_devices devs w)) = username (adapter w) /\
  bridgeId (adapter (with_devices devs w)) = bridgeId (adapter w) /\
  storage (with_devices devs w) = storage w /\
  tasks (with_devices devs w) = tasks w /\
  timers (with_devices devs w) = timers w.
Proof.
  induction devs as [|d devs IH]; intros w; [now split_and!|].
  destruct (IH (with_device (lightId d) d w)) as (I1 & I2 & I3 & I4 & I5 & I6 & I7).
  unfold with_devices in *. cbn [foldl]. split_and!; try assumption.
  rewrite I1. cbn. now rewrite <- app_assoc.
Qed.

Lemma loop_creates a0 : forall ls devs w,
  Forall2 (device_for a0) ls devs ->
  bridgeId (adapter w) = bridgeId a0 ->
  NoDup (map fst ls) ->
  (forall k, In k (map fst ls) -> tracked (lights (adapter w)) k = false) ->
  run (for_in ls discover_one) w = (with_devices devs w, Finished (inr tt)).
Proof.
  induction ls as [|[k light] ls IH]; intros devs w Hf Hb Hnd Hnew.
  { apply Forall2_nil_inv_l in Hf as ->. reflexivity. }
  apply Forall2_cons_inv_l in Hf as (d & devs' & (st & Hst & Hd) & Hf & ->).
  cbn in Hst, Hd. cbn in Hnd. apply NoDup_cons in Hnd as [Hk Hnd].
  rewrite run_loop_cons, (Hnew k) by now left.
  rewrite Hst.
  assert (Ed : device_of (device_id (adapter w) k) k light st = d).
  { subst d. unfold device_id. now rewrite Hb. }
  rewrite Ed. unfold with_devices. cbn [foldl].
  assert (El : lightId d = k) by now subst d.
  rewrite El. apply IH; try assumption.
  intros k' Hin. cbn. rewrite tracked_insert, Hnew by now right.
  destruct (String.eqb_spec k k') as [->|_]; [|reflexivity].
  exfalso. apply Hk. now apply list_elem_of_In.
Qed.

(** X9.  For a list of lights with distinct numeric ids, none tracked
    yet and each with a state, discovery creates one device for each
    listed light, in the order of the list, announces each to the host
    and files it under its light id.  The device is the one
    [device_for] spells out field by field: the id
    ["philips-hue-" + bridgeId + "-" + lightId], the name of the light,
    the type, the [on] property with [state.on] and the [color]
    property with the hex string of [hue / 65535 * 360],
    [sat / 255 * 100] and [bri / 255 * 100].  Nothing else changes, and
    nothing is left pending. *)
Theorem discovery_creates_the_devices w ls devs :
  truthy (username (adapter w)) = true ->
  Forall (fun entry => numeral entry.1 = true) ls ->
  NoDup (map fst ls) ->
  (forall k, In k (map fst ls) -> lights (adapter w) !! k = None) ->
  Forall2 (device_for (adapter w)) ls devs ->
  exists w',
    exec w (discovery ls) = Some w' /\
    since w w' =
      ([ (clock w, called (fetch (lights_request (adapter w))));
         (clock w, called json_lights) ]
       ++ map (fun d => (clock w, did (handleDeviceAdded d))) devs)%list /\
    lights (adapter w') =
      foldl (fun m d => <[lightId d := d]> m) (lights (adapter w)) devs /\
    username (adapter w') = username (adapter w) /\
    storage w' = storage w /\ tasks w' = tasks w /\ timers w' = timers w.
Proof.
  intros Hu _ Hnd Hnew Hf.
  destruct (discovery_spec w ls Hu)
    as (W & w' & r & A1 & A2 & A3 & A4 & A5 & A6 & Hrun & Hexec).
  rewrite (loop_creates (adapter w) ls devs W) in Hrun; try assumption.
  - injection Hrun as <- <-.
    destruct (with_devices_spec devs W) as (I1 & I2 & I3 & I4 & I5 & I6 & I7).
    eexists. split; [exact Hexec|]. cbn [park].
    split_and!; try congruence.
    rewrite (since_app w (with_devices devs W)
               (rev (map (fun d => (clock w, did (handleDeviceAdded d))) devs)
                ++ [ (clock w, called json_lights);
                     (clock w, called (fetch (lights_request (adapter w)))) ])%list).
    + rewrite rev_app_distr, rev_involutive. reflexivity.
    + rewrite I1, A6, A3, <- app_assoc. reflexivity.
  - now rewrite A1.
  - intros k Hin. rewrite A1. unfold tracked. now rewrite (Hnew k Hin).
Qed.

(** ** The pace of a failing session *)

#[local] Arguments registrations : simpl never.
#[local] Arguments registration_times : simpl never.

Lemma registrations_cons t (e : Entry num) l :
  registrations ((t, e) :: l) =
  ((if is_registration e then 1 else 0) + registrations l)%nat.
Proof. unfold registrations. cbn. now destruct (is_registration e). Qed.

Lemma registration_times_cons t (e : Entry num) l :
  registration_times ((t, e) :: l) =
  if is_registration e then t :: registration_times l
  else registration_times l.
Proof. unfold registration_times. cbn. now destruct (is_registration e). Qed.

Lemma apart_snoc gap (l : list Z) t :
  apart gap l -> (forall t', In t' l -> t' + gap <= t) ->
  apart gap (l ++ [t]).
Proof.
  intros Hl Ht i j t1 t2 Hij H1 H2.
  destruct (decide (j < length l)%nat) as [Hj|Hj].
  - rewrite lookup_app_l in H1 by lia. rewrite lookup_app_l in H2 by lia.
    now apply (Hl i j).
  - rewrite lookup_app_r in H2 by lia.
    destruct (j - length l)%nat as [|n] eqn:E; [|now destruct n].
    injection H2 as <-. assert (Hi : (i < length l)%nat) by lia.
    rewrite lookup_app_l in H1 by exact Hi.
    apply Ht, list_elem_of_In. now apply (list_elem_of_lookup_2 l i).
Qed.

Lemma paced_step t0 D w ev w' :
  session D w -> paced t0 D w -> refuses ev = true -> step w ev = Some w' ->
  paced t0 D w'.
Proof.
  intros (Hu & Hp & He & _ & Hph) (Hn & HB & Htm & Hts & Hap & Hpast) Hr Hs.
  destruct w as [[un bid bip pg pe lt] st c ts tm tr].
  cbn in Hu, Hp, He, Hn, HB, Htm, Hts, Hap, Hpast. subst pg pe.
  destruct ev as [dt | i a | j | m]; cbn in Hr; try discriminate.
  - cbn in Hs. destruct (0 <=? dt) eqn:Hdt; [|discriminate].
    injection Hs as <-. apply Z.leb_le in Hdt.
    unfold paced. cbn. split; [exact Hn|]. split; [exact HB|].
    split; [exact Htm|].
    split; [intros Hne; specialize (Hts Hne); lia|].
    split; [exact Hap|]. intros t Ht. specialize (Hpast t Ht). lia.
  - destruct Hph as [Htm0 Hts0 _ | due Hts0 Htm0 _ | Hts0 Htm0 _];
      cbn in Htm0, Hts0; subst; cbn in Hs; try discriminate.
    assert (Hin : t0 + 500 * (Z.of_nat (registrations tr) - 1) <= c).
    { apply Hts. destruct Hts0 as [-> | ->]; discriminate. }
    assert (Hfail : forall e W,
      W = failed e
            {| adapter := {| username := un; bridgeId := bid; bridgeIp := bip;
                             pairing := true; pairingEnd := D; lights := lt |};
               storage := st; clock := c; tasks := []; timers := [];
               trace := tr |} ->
      paced t0 D W).
    { intros e W ->. unfold failed, start. cbn.
      destruct (c <? D) eqn:Hc; cbn.
      - apply Z.ltb_lt in Hc. unfold paced. cbn.
        rewrite !registrations_cons, !registration_times_cons. cbn.
        split; [exact Hn|]. split; [exact HB|].
        split.
        { intros due cb [[= <- <-]|[]]. split; [lia|]. split; [lia|].
          intros t Ht. specialize (Hpast t Ht). lia. }
        split; [intros []; reflexivity|]. split; [exact Hap|exact Hpast].
      - unfold paced. cbn.
        rewrite !registrations_cons, !registration_times_cons. cbn.
        split; [exact Hn|]. split; [exact HB|].
        split; [intros due cb []|].
        split; [intros []; reflexivity|]. split; [exact Hap|exact Hpast]. }
    destruct Hts0 as [-> | ->]; destruct i as [|i]; cbn in Hs; try discriminate.
    + destruct a as [e| |reply|l|s|v]; cbn in Hr, Hs; try discriminate.
      * injection Hs as <-. apply (Hfail e), after_fetch_rejected.
      * injection Hs as <-. rewrite after_fetch_resolved.
        unfold paced. cbn.
        rewrite !registrations_cons, !registration_times_cons. cbn.
        split; [exact Hn|]. split; [exact HB|].
        split; [intros due cb []|]. split; [intros _; exact Hin|].
        split; [exact Hap|exact Hpast].
    + destruct a as [e| |reply|l|s|v]; cbn in Hr, Hs; try discriminate.
      * injection Hs as <-. apply (Hfail e), after_json_rejected.
      * destruct (read_reply reply) as [e|u] eqn:Hrr; [|discriminate].
        injection Hs as <-. apply (Hfail e). now apply after_json_refused.
  - destruct Hph as [Htm0 Hts0 _ | due Hts0 Htm0 _ | Hts0 Htm0 _];
      cbn in Htm0, Hts0; subst; cbn in Hs; try discriminate.
    destruct j as [|j]; cbn in Hs; [|discriminate].
    destruct (due <=? c) eqn:Hdue; [|discriminate]. apply Z.leb_le in Hdue.
    injection Hs as <-. rewrite attempt_starts by assumption.
    destruct (Htm due m_attemptPairing) as (H1 & H2 & H3); [now left|].
    unfold paced. cbn.
    rewrite !registrations_cons, !registration_times_cons. cbn.
    split; [lia|]. split; [right; lia|].
    split; [intros due' cb []|]. split; [intros _; lia|].
    split.
    + apply apart_snoc; [exact Hap|]. intros t Ht.
      apply in_rev in Ht. specialize (H3 t Ht). lia.
    + intros t [<-|Ht]; [lia|]. now apply Hpast.
Qed.

Lemma paced_exec t0 D evs : forall w w',
  session D w -> paced t0 D w -> forallb refuses evs = true ->
  exec w evs = Some w' -> paced t0 D w'.
Proof.
  induction evs as [|ev evs IH]; intros w w' Hs Hp Hr He; cbn in *.
  - now injection He as <-.
  - apply andb_prop in Hr as [Hr1 Hr2].
    destruct (step w ev) as [w1|] eqn:Hstep; [|discriminate].
    apply (IH w1 w'); auto.
    + now apply (session_step D w ev).
    + now apply (paced_step t0 D w ev).
Qed.

(** A failing session from the booted world keeps its pace. *)
Lemma paced_from_boot a st t0 timeoutSeconds evs w :
  truthy (username a) = false ->
  forallb refuses evs = true ->
  exec (boot a st t0) (host (m_startPairing timeoutSeconds) :: evs) = Some w ->
  paced t0 (t0 + timeoutSeconds * 1000) w.
Proof.
  intros Hu Hr He.
  change (exec (boot a st t0) (host (m_startPairing timeoutSeconds) :: evs))
    with (exec (start (body_of (m_startPairing timeoutSeconds)) (boot a st t0))
            evs) in He.
  rewrite startPairing_starts in He by exact Hu.
  set (D := t0 + timeoutSeconds * 1000) in *.
  match type of He with exec ?W _ = _ => set (w0 := W) in * end.
  assert (Hs0 : session D w0).
  { unfold session, w0. cbn. split_and!; auto.
    - intros t cb d [Heq|[]]. discriminate.
    - apply in_flight; cbn; auto. rewrite late_cons. cbn.
      destruct (D <=? t0) eqn:Hc; [right|left; reflexivity].
      split; [reflexivity|now apply Z.leb_le]. }
  assert (Hp0 : paced t0 D w0).
  { unfold paced, w0, registrations, registration_times. cbn.
    split; [lia|]. split; [left; lia|]. split; [intros due cb []|].
    split; [intros _; lia|]. split.
    - intros i j t1 t2 Hij H1 H2. destruct j as [|j]; [lia|].
      now destruct j.
    - intros t [<-|[]]. lia. }
  exact (paced_exec t0 D evs w0 w Hs0 Hp0 Hr He).
Qed.


(** ** Guarded programs make allowed moves only

    For a relation [G] that is a preorder, that the outside world's own
    moves respect and that the settling of a call that may be pending
    respects: when every method is guarded, every event leads from a
    world whose pending chains are guarded to such a world, by an
    allowed move. *)

Implicit Types (d : PhilipsHueDevice num) (p : PhilipsHueProperty num).
Implicit Types (v : jsval num) (r : Answer num) (c : Call num).

Section Soundness.
Variable G : World num -> World num -> Prop.
Variable okc : World num -> Call num -> Prop.
Hypothesis G_refl : forall w, G w w.
Hypothesis G_trans : forall w1 w2 w3, G w1 w2 -> G w2 w3 -> G w1 w3.
Hypothesis G_tasks : forall w ts, G w (set_tasks ts w).
Hypothesis G_timers : forall w l, G w (set_timers l w).
Hypothesis G_clock : forall w t, G w (set_clock t w).
Hypothesis G_unhandled : forall w e, G w (record (unhandled e) w).
Hypothesis okc_stable : forall w w' c, G w w' -> okc w c -> okc w' c.
Hypothesis okc_settle :
  forall w c ans w1 r, okc w c -> settles w c ans = Some (w1, r) -> G w w1.

Lemma task_ok_stable w w' t :
  G w w' -> task_ok G okc w t -> task_ok G okc w' t.
Proof.
  intros HG [Hc Hk]. split; [now apply (okc_stable w)|].
  intros w'' ans w1 r ts HG' Hs. eapply Hk; [|exact Hs].
  now apply (G_trans _ w').
Qed.

Lemma run_sound {A : Type} (p : prog A) w :
  guarded G okc p w ->
  G w (run p w).1 /\
  (exists new, tasks (run p w).1 = (new ++ tasks w)%list /\
               Forall (task_ok G okc (run p w).1) new) /\
  status_ok G okc (run p w).1 (run p w).2.
Proof.
  revert w. induction p as [A x|A e|A k IH|A a k IH|A k IH|A e k IH|A q IHq k IHk|A c k IH];
    intros w Hg; cbn in *.
  - split; [apply G_refl|]. split; [exists []; split; [reflexivity|constructor]|exact I].
  - split; [apply G_refl|]. split; [exists []; split; [reflexivity|constructor]|exact I].
  - now apply IH.
  - destruct Hg as [HG Hg]. destruct (IH _ Hg) as (H1 & (new & H2 & H3) & H4).
    split; [eauto|]. split; [|exact H4]. exists new. split; [|exact H3].
    rewrite H2. reflexivity.
  - now apply IH.
  - destruct Hg as [HG Hg]. destruct (IH _ Hg) as (H1 & (new & H2 & H3) & H4).
    split; [eauto|]. split; [|exact H4]. exists new. split; [|exact H3].
    rewrite H2. destruct e; reflexivity.
  - destruct Hg as [Hq Hk]. destruct (IHq _ Hq) as (H1 & (new & H2 & H3) & H4).
    destruct (run q w) as [w1 s] eqn:E. cbn in *.
    assert (HP : G w1 (park s w1)).
    { destruct s as [[e|[]]|c k']; cbn; auto. }
    assert (Hnew : exists new', tasks (park s w1) = (new' ++ tasks w)%list /\
                                Forall (task_ok G okc (park s w1)) new').
    { destruct s as [[e|[]]|c k']; cbn.
      - exists new. split; [exact H2|].
        eapply Forall_impl; [exact H3|]. intros t. now apply task_ok_stable.
      - exists new. split; [exact H2|exact H3].
      - exists ({| waiting := c; cont := k' |} :: new). split.
        { now rewrite H2. }
        constructor.
        + destruct H4 as [Hc Hk']. split; cbn; [eauto|].
          intros w' ans w2 r ts HG Hs. eapply Hk'; [|exact Hs]. eauto.
        + eapply Forall_impl; [exact H3|]. intros t. now apply task_ok_stable. }
    destruct Hnew as (new' & Hn1 & Hn2).
    assert (Hg' : guarded G okc k (park s w1)) by (apply Hk; eauto).
    destruct (IHk _ Hg') as (K1 & (new2 & K2 & K3) & K4).
    split; [eauto|]. split; [|exact K4].
    exists (new2 ++ new')%list. split.
    { rewrite K2, Hn1. now rewrite app_assoc. }
    apply Forall_app. split; [exact K3|].
    eapply Forall_impl; [exact Hn2|]. intros t. now apply task_ok_stable.
  - destruct Hg as (Hc & HG & Hk). split; [exact HG|].
    split; [exists []; split; [reflexivity|constructor]|].
    split; [eauto|]. intros w' ans w1 r ts HG' Hs. eapply Hk; [|exact Hs]. eauto.
Qed.

Lemma start_sound (p : prog unit) w :
  guarded G okc p w -> tasks_ok G okc w ->
  G w (start p w) /\ tasks_ok G okc (start p w).
Proof.
  intros Hg Hi. destruct (run_sound p w Hg) as (H1 & (new & H2 & H3) & H4).
  unfold start. destruct (run p w) as [w1 s]. cbn in *.
  assert (Hold : Forall (task_ok G okc w1) (tasks w)).
  { eapply Forall_impl; [exact Hi|]. intros t. now apply task_ok_stable. }
  destruct s as [[e|[]]|c k]; cbn.
  - split; [eauto|]. unfold tasks_ok. cbn. rewrite H2. apply Forall_app. split.
    + eapply Forall_impl; [exact H3|]. intros t. now apply task_ok_stable.
    + eapply Forall_impl; [exact Hold|]. intros t. now apply task_ok_stable.
  - split; [exact H1|]. unfold tasks_ok. rewrite H2. now apply Forall_app.
  - split; [eauto|]. unfold tasks_ok. cbn. constructor.
    + destruct H4 as [Hc Hk]. split; cbn; [eauto|].
      intros w' ans w2 r ts HG Hs. eapply Hk; [|exact Hs]. eauto.
    + rewrite H2. apply Forall_app. split.
      * eapply Forall_impl; [exact H3|]. intros t. now apply task_ok_stable.
      * eapply Forall_impl; [exact Hold|]. intros t. now apply task_ok_stable.
Qed.

Hypothesis bodies : forall m w, guarded G okc (body_of m) w.

Lemma step_sound w ev w' :
  tasks_ok G okc w -> step w ev = Some w' -> G w w' /\ tasks_ok G okc w'.
Proof.
  intros Hi Hs. destruct ev as [dt|i ans|j|m]; cbn in Hs.
  - destruct (0 <=? dt); [|discriminate]. injection Hs as <-.
    split; [apply G_clock|]. eapply Forall_impl; [exact Hi|].
    intros t. apply task_ok_stable, G_clock.
  - destruct (tasks w !! i) as [t|] eqn:Et; [|discriminate].
    destruct (settles w (waiting t) ans) as [[w1 r]|] eqn:Es; [|discriminate].
    injection Hs as <-.
    assert (Ht : task_ok G okc w t).
    { unfold tasks_ok in Hi. rewrite Forall_lookup in Hi. eauto. }
    destruct Ht as [Hc Hk].
    assert (H1 : G w w1) by eauto.
    set (w2 := set_tasks (delete i (tasks w1)) w1).
    assert (H2 : G w w2) by (unfold w2; eauto).
    assert (Hi2 : tasks_ok G okc w2).
    { unfold tasks_ok, w2. cbn.
      assert (Etk : tasks w1 = tasks w).
      { destruct ans, (waiting t); cbn in Es; try discriminate;
          injection Es as <- _; reflexivity. }
      rewrite Etk.
      apply Forall_delete. eapply Forall_impl; [exact Hi|].
      intros t'. apply task_ok_stable.
      apply (G_trans _ w1); [exact H1|apply G_tasks]. }
    destruct (start_sound (cont t r) w2) as [K1 K2]; [|exact Hi2|].
    { unfold w2. eapply Hk; [apply G_refl|exact Es]. }
    split; [eauto|exact K2].
  - destruct (timers w !! j) as [[due cb]|]; [|discriminate].
    destruct (due <=? clock w); [|discriminate]. injection Hs as <-.
    set (w2 := set_timers (delete j (timers w)) w).
    assert (H2 : G w w2) by apply G_timers.
    destruct (start_sound (body_of cb) w2) as [K1 K2]; [apply bodies| |].
    { eapply Forall_impl; [exact Hi|]. intros t. now apply task_ok_stable. }
    split; [eauto|exact K2].
  - injection Hs as <-. apply start_sound; [apply bodies|exact Hi].
Qed.

Lemma exec_sound evs : forall w w',
  tasks_ok G okc w -> exec w evs = Some w' -> G w w' /\ tasks_ok G okc w'.
Proof.
  induction evs as [|ev evs IH]; intros w w' Hi He; cbn in He.
  - injection He as <-. split; [apply G_refl|exact Hi].
  - destruct (step w ev) as [w1|] eqn:Es; [|discriminate].
    destruct (step_sound _ _ _ Hi Es) as [H1 H2].
    destruct (IH _ _ H2 He) as [K1 K2]. split; [eauto|exact K2].
Qed.

End Soundness.

(** ** The adapter's own moves *)

Lemma keeps_refl a : keeps a a.
Proof.
  split; [reflexivity|]. split; [reflexivity|]. split; [|auto].
  intros k d Hd. exists d. split; [exact Hd|]. repeat split.
Qed.

Lemma same_device_trans (d1 d2 d3 : PhilipsHueDevice num) :
  same_device d1 d2 -> same_device d2 d3 -> same_device d1 d3.
Proof.
  intros (A1 & A2 & A3 & A4) (B1 & B2 & B3 & B4).
  repeat split; congruence.
Qed.

Lemma keeps_trans a1 a2 a3 : keeps a1 a2 -> keeps a2 a3 -> keeps a1 a3.
Proof.
  intros (A1 & A2 & A3 & A4) (B1 & B2 & B3 & B4).
  split; [congruence|]. split; [congruence|]. split; [|auto].
  intros k d Hd. destruct (A3 _ _ Hd) as (d2 & Hd2 & S2).
  destruct (B3 _ _ Hd2) as (d3 & Hd3 & S3).
  exists d3. split; [exact Hd3|]. now apply (same_device_trans d d2).
Qed.

Lemma others_kept_refl bid s : others_kept bid s s.
Proof. split; reflexivity. Qed.

Lemma others_kept_trans bid (s1 s2 s3 : gmap string Table) :
  others_kept bid s1 s2 -> others_kept bid s2 s3 -> others_kept bid s1 s3.
Proof.
  intros [A1 A2] [B1 B2]. split.
  - intros key Hk. now rewrite B1, A1.
  - intros b Hb. now rewrite B2, A2.
Qed.

Lemma moves_refl w : moves w w.
Proof.
  split; [apply keeps_refl|]. split; [apply others_kept_refl|].
  exists []. split; [reflexivity|]. split; [constructor|]. constructor.
Qed.

Lemma moves_trans w1 w2 w3 : moves w1 w2 -> moves w2 w3 -> moves w1 w3.
Proof.
  intros (A1 & A2 & l1 & A3 & A4 & A5) (B1 & B2 & l2 & B3 & B4 & B5).
  pose proof A1 as (Eid & Eip & _ & Hreg).
  split; [now apply (keeps_trans _ (adapter w2))|].
  split.
  { apply (others_kept_trans _ _ (storage w2)); [exact A2|].
    now rewrite <- Eid. }
  exists (l2 ++ l1)%list. split; [now rewrite B3, A3, app_assoc|].
  split.
  - apply Forall_app. split; [now rewrite <- Eip|exact A4].
  - intros Hr. apply Forall_app. split; auto.
Qed.

(** A change of what no guarantee speaks of. *)
Lemma moves_same w w' :
  adapter w' = adapter w -> storage w' = storage w -> trace w' = trace w ->
  moves w w'.
Proof.
  intros Ea Es Et. split; [rewrite Ea; apply keeps_refl|].
  split; [rewrite Es; apply others_kept_refl|].
  exists []. split; [now rewrite Et|]. split; constructor.
Qed.

Lemma moves_record e w :
  entry_ok (bridgeIp (adapter w)) e ->
  (registry_ok (adapter w) -> quiet e) ->
  moves w (record e w).
Proof.
  intros He Hq. split; [apply keeps_refl|]. split; [apply others_kept_refl|].
  exists [(clock w, e)]. split; [reflexivity|].
  split; [now constructor|]. intros Hr. constructor; [now apply Hq|constructor].
Qed.

Lemma moves_perform e w :
  (registry_ok (adapter w) -> quiet (did e)) -> moves w (perform e w).
Proof.
  intros Hq.
  apply (moves_trans _ (record (did e) w)); [now apply moves_record|].
  destruct e; try apply moves_refl. now apply moves_same.
Qed.

Lemma moves_assign a' w :
  keeps (adapter w) a' -> moves w (set_adapter a' w).
Proof.
  intros Hk. split; [exact Hk|]. split; [apply others_kept_refl|].
  exists []. split; [reflexivity|]. split; constructor.
Qed.

Lemma may_call_stable w w' c : moves w w' -> may_call w c -> may_call w' c.
Proof.
  intros ((Eid & _) & [_ Hs] & _). destruct c; cbn; auto.
  intros [-> Hv]. split; [reflexivity|]. intros b Hb.
  rewrite Eid in Hb. rewrite Hs by exact Hb. now apply Hv.
Qed.

Lemma may_call_settle w c ans w1 r :
  may_call w c -> settles w c ans = Some (w1, r) -> moves w w1.
Proof.
  intros Hc Hs.
  destruct ans, c; cbn in Hs; try discriminate; injection Hs as <- <-;
    try apply moves_refl.
  destruct Hc as [-> Hv].
  split; [apply keeps_refl|]. split.
  - split.
    + intros k Hk. cbn. now rewrite lookup_insert_ne.
    + intros b Hb. cbn. rewrite lookup_insert_eq. cbn. now apply Hv.
  - exists []. split; [reflexivity|]. split; constructor.
Qed.

Local Abbreviation safe := (guarded moves may_call).

Lemma safe_bind {A B : Type} (p : prog A) (f : A -> prog B) w :
  safe p w -> (forall x w', moves w w' -> safe (f x) w') -> safe (bind p f) w.
Proof.
  revert B f w.
  induction p as [A x|A e|A k IH|A a' k IH|A k IH|A e k IH|A q IHq k IHk|A c k IH];
    intros B f w Hp Hf; cbn in *.
  - apply Hf, moves_refl.
  - exact I.
  - now apply IH.
  - destruct Hp as [HG Hp]. split; [exact HG|]. apply IH; [exact Hp|].
    intros x w' Hw. apply Hf. now apply (moves_trans _ (set_adapter a' w)).
  - now apply IH.
  - destruct Hp as [HG Hp]. split; [exact HG|]. apply IH; [exact Hp|].
    intros x w' Hw. apply Hf. now apply (moves_trans _ (perform e w)).
  - destruct Hp as [Hq Hk]. split; [exact Hq|]. intros w' Hw.
    apply IHk; [now apply Hk|]. intros x w'' Hw'. apply Hf.
    now apply (moves_trans _ w').
  - destruct Hp as (Hc & HG & Hk). split; [exact Hc|]. split; [exact HG|].
    intros w' ans w1 r ts Hw Hs. apply IH; [now apply (Hk w' ans)|].
    intros x w'' Hw'. apply Hf.
    apply (moves_trans _ w'); [exact Hw|].
    apply (moves_trans _ w1).
    { apply (may_call_settle w' c ans w1 r); [|exact Hs].
      now apply (may_call_stable w). }
    apply (moves_trans _ (set_tasks ts w1)); [now apply moves_same|exact Hw'].
Qed.

Lemma safe_catch {A : Type} (p : prog A) (h : err -> prog A) w :
  safe p w -> (forall e w', moves w w' -> safe (h e) w') -> safe (catch_ p h) w.
Proof.
  revert h w.
  induction p as [A x|A e|A k IH|A a' k IH|A k IH|A e k IH|A q IHq k IHk|A c k IH];
    intros h w Hp Hf; cbn in *.
  - exact I.
  - apply Hf, moves_refl.
  - now apply IH.
  - destruct Hp as [HG Hp]. split; [exact HG|]. apply IH; [exact Hp|].
    intros x w' Hw. apply Hf. now apply (moves_trans _ (set_adapter a' w)).
  - now apply IH.
  - destruct Hp as [HG Hp]. split; [exact HG|]. apply IH; [exact Hp|].
    intros x w' Hw. apply Hf. now apply (moves_trans _ (perform e w)).
  - destruct Hp as [Hq Hk]. split; [exact Hq|]. intros w' Hw.
    apply IHk; [now apply Hk|]. intros x w'' Hw'. apply Hf.
    now apply (moves_trans _ w').
  - destruct Hp as (Hc & HG & Hk). split; [exact Hc|]. split; [exact HG|].
    intros w' ans w1 r ts Hw Hs. apply IH; [now apply (Hk w' ans)|].
    intros x w'' Hw'. apply Hf.
    apply (moves_trans _ w'); [exact Hw|].
    apply (moves_trans _ w1).
    { apply (may_call_settle w' c ans w1 r); [|exact Hs].
      now apply (may_call_stable w). }
    apply (moves_trans _ (set_tasks ts w1)); [now apply moves_same|exact Hw'].
Qed.

Lemma safe_settled r w : safe (settled r) w.
Proof. destruct r; exact I. Qed.

Ltac safety :=
  repeat first
    [ exact I
    | reflexivity
    | progress intros
    | progress cbn
    | match goal with
      | |- _ /\ _ => split
      | |- moves _ (set_timers _ (record (did (setTimeout ?cb ?d)) _)) =>
        apply (moves_perform (setTimeout cb d)); intros _; exact I
      | |- moves _ (record (called (fetch _)) _) =>
        apply moves_record; [eexists; reflexivity | intros _; exact I]
      | |- moves _ (record _ _) =>
        apply moves_record; [try exact I; try reflexivity | intros _; exact I]
      | |- moves _ (perform _ _) => apply moves_perform; intros _; exact I
      | |- safe (settled _) _ => apply safe_settled
      | |- safe ?p _ =>
        match p with
        | context [match ?r with _ => _ end] => destruct r eqn:?
        | context [settled ?r] => destruct r
        end
      | |- safe (catch_ _ _) _ => apply safe_catch
      | |- safe (bind _ _) _ => apply safe_bind
      | |- safe (match ?r with _ => _ end) _ => destruct r eqn:?
      end ].

Lemma safe_sendProperties l props w : safe (sendProperties l props) w.
Proof. unfold sendProperties. safety. Qed.
#[local] Arguments sendProperties : simpl never.

Lemma safe_notifyPropertyChanged d p w :
  (registry_ok (adapter w) -> prop_name p = "on" \/ prop_name p = "color") ->
  safe (notifyPropertyChanged d p) w.
Proof.
  intros Hp. unfold notifyPropertyChanged, properties_get_value, new_Color.
  safety; try apply safe_sendProperties.
  apply moves_record; [exact I|]. cbn. intros Hr.
  destruct (Hp Hr) as [E|E]; rewrite E in *; discriminate.
Qed.
#[local] Arguments notifyPropertyChanged : simpl never.

Lemma device_ok_property bid k d n p :
  device_ok bid k d -> properties d !! n = Some p ->
  prop_name p = "on" \/ prop_name p = "color".
Proof.
  intros (_ & _ & _ & on & color & E) Hp. rewrite E in Hp.
  apply lookup_insert_Some in Hp as [[_ <-]|[_ Hp]]; [now right|].
  apply lookup_insert_Some in Hp as [[_ <-]|[_ Hp]]; [now left|].
  now rewrite lookup_empty in Hp.
Qed.

Lemma device_ok_setCachedValue bid k d n p v :
  device_ok bid k d -> properties d !! n = Some p ->
  device_ok bid k
    (set_properties (<[n := setCachedValue v p]> (properties d)) d).
Proof.
  intros (E1 & E2 & E3 & on & color & E) Hp.
  split; [exact E1|]. split; [exact E2|]. split; [exact E3|].
  cbn. rewrite E in *.
  apply lookup_insert_Some in Hp as [[<- <-]|[Hn Hp]].
  { exists on, v. now rewrite insert_insert_eq. }
  apply lookup_insert_Some in Hp as [[<- <-]|[_ Hp]].
  { exists v, color. rewrite insert_insert_ne by congruence.
    now rewrite insert_insert_eq. }
  now rewrite lookup_empty in Hp.
Qed.

Lemma keeps_setValue a light d n p v :
  lights a !! light = Some d -> properties d !! n = Some p ->
  keeps a
    (set_lights
       (<[light := set_properties (<[n := setCachedValue v p]> (properties d)) d]>
          (lights a)) a).
Proof.
  intros Hd Hp. split; [reflexivity|]. split; [reflexivity|]. split.
  - intros k d0 Hk. cbn. destruct (decide (k = light)) as [->|Hne].
    + rewrite lookup_insert_eq. eexists. split; [reflexivity|].
      rewrite Hd in Hk. injection Hk as <-. repeat split.
    + rewrite lookup_insert_ne by congruence. exists d0.
      split; [exact Hk|]. repeat split.
  - intros Hr k d0. cbn. destruct (decide (k = light)) as [->|Hne].
    + rewrite lookup_insert_eq. intros [= <-].
      apply device_ok_setCachedValue; [now apply Hr|exact Hp].
    + rewrite lookup_insert_ne by congruence. apply Hr.
Qed.

Lemma safe_setValue light name v w : safe (setValue light name v) w.
Proof.
  unfold setValue. safety.
  - apply moves_assign. eapply keeps_setValue; eassumption.
  - apply safe_notifyPropertyChanged. cbn. intros Hr.
    apply (device_ok_property (bridgeId (adapter w)) light
             (set_properties (<[name:=setCachedValue v p0]> (properties p)) p)
             name (setCachedValue v p0)).
    + apply Hr. cbn. now rewrite lookup_insert_eq.
    + cbn. now rewrite lookup_insert_eq.
Qed.
#[local] Arguments setValue : simpl never.

Lemma keeps_discover a k light st :
  tracked (lights a) k = false ->
  keeps a
    (set_lights (<[k := device_of (device_id a k) k light st]> (lights a)) a).
Proof.
  unfold tracked. intros Hk. destruct (lights a !! k) as [|] eqn:Ek;
    [discriminate|].
  split; [reflexivity|]. split; [reflexivity|]. split.
  - intros k' d Hd. cbn. exists d. split; [|repeat split].
    rewrite lookup_insert_ne; [exact Hd|]. congruence.
  - intros Hr k' d. cbn. destruct (decide (k' = k)) as [->|Hne].
    + rewrite lookup_insert_eq. intros [= <-].
      split; [reflexivity|]. split; [reflexivity|]. split; [reflexivity|].
      eexists _, _. reflexivity.
    + rewrite lookup_insert_ne by congruence. apply Hr.
Qed.

Lemma safe_discover_one k light w : safe (discover_one k light) w.
Proof.
  unfold discover_one, new_PhilipsHueDevice. safety.
  apply moves_assign. now apply keeps_discover.
Qed.
#[local] Arguments discover_one : simpl never.

Lemma safe_lights_decode res w : safe (lights_decode res) w.
Proof.
  destruct res as [| |?|ls| |]; try exact I. cbn.
  revert w. induction ls as [|[k light] ls IH]; intros w; [exact I|].
  cbn. apply safe_bind; [apply safe_discover_one|]. intros _ w' _. apply IH.
Qed.

Lemma safe_discoverLights w : safe discoverLights w.
Proof.
  unfold discoverLights. safety; apply (safe_lights_decode (LightList _)).
Qed.
#[local] Arguments discoverLights : simpl never.

Lemma safe_pair w : safe pair w.
Proof. unfold pair, pair_decode. safety. Qed.
#[local] Arguments pair : simpl never.

Lemma safe_store_username w : safe store_username w.
Proof.
  unfold store_username. safety.
  all: match goal with
       | H : settles _ (storage_getItem _) ?ans = Some (_, Item _) |- _ =>
         destruct ans; cbn in H; try discriminate; injection H as <- <-
       end.
  all: rewrite lookup_insert_ne by congruence; reflexivity.
Qed.
#[local] Arguments store_username : simpl never.

Lemma safe_retry e w : safe (retry e) w.
Proof. unfold retry. safety. Qed.
#[local] Arguments retry : simpl never.

Lemma keeps_fields a a' :
  bridgeId a' = bridgeId a -> bridgeIp a' = bridgeIp a -> lights a' = lights a ->
  keeps a a'.
Proof.
  intros E1 E2 E3. split; [exact E1|]. split; [exact E2|]. split.
  - intros k d Hd. exists d. rewrite E3. split; [exact Hd|]. repeat split.
  - intros Hr k d. rewrite E3, E1. apply Hr.
Qed.

Lemma safe_modify f w :
  (forall a, bridgeId (f a) = bridgeId a /\ bridgeIp (f a) = bridgeIp a /\
             lights (f a) = lights a) ->
  safe (modify f) w.
Proof.
  intros Hf. cbn. split; [|exact I]. apply moves_assign.
  destruct (Hf (adapter w)) as (E1 & E2 & E3). now apply keeps_fields.
Qed.
#[local] Arguments modify : simpl never.

Lemma safe_after_pair u w : safe (after_pair u) w.
Proof.
  unfold after_pair. apply safe_bind; [now apply safe_modify|].
  intros _ w1 _. apply safe_bind; [apply safe_discoverLights|].
  intros _ w2 _. apply safe_store_username.
Qed.

Lemma safe_attemptPairing w : safe attemptPairing w.
Proof.
  unfold attemptPairing. apply safe_catch.
  - apply safe_bind; [apply safe_pair|]. intros u w1 _. apply safe_after_pair.
  - intros e w1 _. apply safe_retry.
Qed.
#[local] Arguments attemptPairing : simpl never.

Lemma safe_detach {A : Type} (p : prog A) w : safe p w -> safe (detach p) w.
Proof.
  intros Hp. split; [|intros; exact I].
  apply safe_bind; [exact Hp|]. intros; exact I.
Qed.

Lemma safe_load_username w : safe load_username w.
Proof.
  unfold load_username. safety.
  all: first [now apply safe_modify | apply safe_discoverLights].
Qed.
#[local] Arguments load_username : simpl never.
Lemma safe_constructor w : safe constructor w.
Proof.
  unfold constructor. safety. apply safe_load_username.
Qed.

Lemma safe_startPairing T w : safe (startPairing T) w.
Proof.
  unfold startPairing. apply safe_bind; [now apply safe_modify|].
  intros _ w1 _. cbn.
  apply safe_bind; [now apply safe_modify|].
  intros _ w2 _. apply safe_detach, safe_attemptPairing.
Qed.

Lemma safe_body_of m w : safe (body_of m) w.
Proof.
  destruct m as [T| | | |light name v]; cbn [body_of].
  - apply safe_startPairing.
  - apply safe_detach, safe_attemptPairing.
  - now apply safe_modify.
  - apply safe_discoverLights.
  - apply safe_bind; [apply safe_setValue|]. intros; exact I.
Qed.

Ltac closure :=
  first [ exact moves_refl | exact moves_trans | exact may_call_stable
        | exact may_call_settle | exact safe_body_of
        | intros; apply moves_same; reflexivity
        | intros; apply moves_record; [exact I | intros _; exact I] ].

(** From a world whose pending chains are the adapter's own, whatever
    happens is an allowed move. *)
Lemma onwards w evs w' :
  tasks_ok moves may_call w -> exec w evs = Some w' ->
  moves w w' /\ tasks_ok moves may_call w'.
Proof. apply exec_sound; closure. Qed.

(** Every world the adapter can get into, from its construction on. *)
Lemma reachable id ip s t evs w :
  exec (construct id ip s t) evs = Some w ->
  moves (boot (new_PhilipsHueAdapter id ip) s t) w /\
  tasks_ok moves may_call w.
Proof.
  intros He.
  assert (H0 : moves (boot (new_PhilipsHueAdapter id ip) s t)
                 (construct id ip s t) /\
               tasks_ok moves may_call (construct id ip s t)).
  { apply start_sound; try closure; [apply safe_constructor|constructor]. }
  destruct H0 as [H1 H2]. destruct (onwards _ _ _ H2 He) as [K1 K2].
  split; [|exact K2]. now apply (moves_trans _ (construct id ip s t)).
Qed.

(** ** What holds under every schedule *)

(** X13.  Whatever happens after the adapter is constructed (its methods are
    called, the bridge and the store answer or fail, in any order, time
    passes, timers fire), a light that is tracked stays tracked under
    its key, by a device of the same identity: no device is dropped or
    replaced. *)
Theorem tracked_lights_stay_tracked id ip s t evs1 evs2 w1 w2 k d :
  exec (construct id ip s t) evs1 = Some w1 ->
  exec w1 evs2 = Some w2 ->
  lights (adapter w1) !! k = Some d ->
  exists d', lights (adapter w2) !! k = Some d' /\ same_device d d'.
Proof.
  intros H1 H2 Hd. destruct (reachable _ _ _ _ _ _ H1) as [_ Hi].
  destruct (onwards _ _ _ Hi H2) as [((_ & _ & Hk & _) & _) _].
  now apply Hk.
Qed.

(** X14.  In every world the adapter can get into it is the adapter of the
    bridge it was constructed for, and each device it tracks is as
    discovery creates it: filed under its light id, named after the
    bridge and the light, an on/off colour light with exactly the
    properties [on] and [color]. *)
Theorem tracked_devices_are_as_discovered id ip s t evs w :
  exec (construct id ip s t) evs = Some w ->
  bridgeId (adapter w) = id /\ bridgeIp (adapter w) = ip /\
  forall k d, lights (adapter w) !! k = Some d -> device_ok id k d.
Proof.
  intros He. destruct (reachable _ _ _ _ _ _ He) as [((E1 & E2 & _ & Hr) & _) _].
  cbn in E1, E2. split; [exact E1|]. split; [exact E2|].
  rewrite <- E1. apply Hr. intros k d Hd. cbn in Hd.
  now rewrite lookup_empty in Hd.
Qed.

(** X15.  The adapter changes nothing in the store but the table of known
    usernames, and in that table nothing but the entry of its own
    bridge. *)
Theorem store_is_changed_at_one_entry id ip s t evs w :
  exec (construct id ip s t) evs = Some w ->
  others_kept id s (storage w).
Proof.
  intros He. now destruct (reachable _ _ _ _ _ _ He) as [(_ & Hs & _) _].
Qed.

(** X16.  Every request the adapter ever sends goes to the API of the bridge
    it was constructed for, and every call of the store is for the
    table of known usernames. *)
Theorem requests_go_to_the_bridge id ip s t evs w tm e :
  exec (construct id ip s t) evs = Some w ->
  In (tm, e) (trace w) ->
  entry_ok ip e.
Proof.
  intros He Hin.
  destruct (reachable _ _ _ _ _ _ He) as [(_ & _ & l & Ht & Hl & _) _].
  cbn in Ht, Hl. rewrite app_nil_r in Ht. rewrite Ht in Hin.
  rewrite List.Forall_forall in Hl.
  exact (Hl _ Hin).
Qed.

(** X17.  The warning "Unknown property:" is never logged: the devices the
    adapter creates have no property but [on] and [color], so the
    default branch of [notifyPropertyChanged] is never taken. *)
Theorem unknown_property_is_never_reported id ip s t evs w tm m n :
  exec (construct id ip s t) evs = Some w ->
  ~ In (tm, did (console_warn m n)) (trace w).
Proof.
  intros He Hin.
  destruct (reachable _ _ _ _ _ _ He) as [(_ & _ & l & Ht & _ & Hl) _].
  cbn in Ht, Hl. rewrite app_nil_r in Ht. rewrite Ht in Hin.
  assert (Hq : Forall (fun e : Z * Entry num => quiet e.2) l).
  { apply Hl. intros k d Hd. cbn in Hd. now rewrite lookup_empty in Hd. }
  rewrite List.Forall_forall in Hq.
  exact (Hq _ Hin).
Qed.

End Properties.

(** * The properties on concrete runs *)

Import Exact.

(** The world a scenario names is the world its events lead to. *)
Ltac ran :=
  unfold Scenario.one_second_session, Scenario.paired,
    Scenario.cancelled_while_waiting, Scenario.after;
  apply exec_default; vm_compute; reflexivity.

(** C1: the specification's wording fails.  Pairing was started at time
    0, the first attempt failed, the host cancelled, and 500 ms passed;
    the timer that now fires sends a registration request. *)
Lemma cancelled_retry_is_not_silent :
  ~ fires_silently Scenario.cancelled_while_waiting 0.
Proof.
  intros H. specialize (H eq_refl _ eq_refl).
  vm_compute in H. discriminate H.
Qed.

Lemma cancelled_retry_makes_one_last_attempt_witness :
  pairing (adapter Scenario.cancelled_while_waiting) = false /\
  exists w1,
    step Scenario.cancelled_while_waiting (fire 0) = Some w1 /\
    since Scenario.cancelled_while_waiting w1 =
      [(500, called (fetch (pair_request Scenario.bridge)))].
Proof.
  split; [reflexivity|].
  destruct (cancelled_retry_makes_one_last_attempt
              Scenario.cancelled_while_waiting 0 500)
    as (w1 & Hstep & Hsince & _);
    [reflexivity | reflexivity | reflexivity | vm_compute; discriminate |].
  exists w1. split; [exact Hstep | exact Hsince].
Defined.

(** C2: the specification's wording fails.  A session of one second is
    started at time 0 against a bridge that refuses at once.  The
    attempts are at 0 and 500; the second one fails before the deadline
    of 1000, so a third attempt is scheduled, and its request is issued
    at 1000. *)
Lemma one_second_session_registers_at_the_deadline :
  forallb refuses Scenario.always_failing = true /\
  exec Scenario.fresh (host (m_startPairing 1) :: Scenario.always_failing)
    = Some Scenario.one_second_session /\
  pairingEnd (adapter Scenario.one_second_session) = 1000 /\
  ~ no_registration_from 1000 Scenario.one_second_session.
Proof.
  split; [vm_compute; reflexivity|]. split; [ran|].
  split; [vm_compute; reflexivity|].
  intros H.
  specialize (H 1000 (called (fetch (pair_request Scenario.bridge)))).
  assert (1000 < 1000); [|lia].
  apply H; [|vm_compute; reflexivity]. vm_compute. left. reflexivity.
Qed.

Lemma retries_are_scheduled_before_the_deadline_witness :
  pairingEnd (adapter Scenario.one_second_session) = 0 + 1 * 1000 /\
  timely (0 + 1 * 1000)
    (since Scenario.fresh Scenario.one_second_session) /\
  (late (0 + 1 * 1000)
     (since Scenario.fresh Scenario.one_second_session) <= 1)%nat.
Proof.
  apply (retries_are_scheduled_before_the_deadline
           Scenario.fresh 1 Scenario.always_failing);
    [ vm_compute; reflexivity | reflexivity | reflexivity
    | vm_compute; reflexivity | ran ].
Defined.

Lemma bridge_lights_well_formed : Forall well_formed Scenario.bridge_lights.
Proof. repeat (constructor; [eexists; reflexivity|]). constructor. Qed.

(** C3: the specification's wording fails.  In the run in which the
    first attempt succeeds, the table is written after the light list
    is requested, not before. *)
Lemma discovery_precedes_the_write :
  exec Scenario.fresh
    (successful_pairing 30 Scenario.accepted Scenario.bridge_lights)
    = Some Scenario.paired /\
  ~ stored_then_discovered (since Scenario.fresh Scenario.paired).
Proof.
  split; [ran|].
  intros (i & j & Hi & Hj & Hlt).
  vm_compute in Hi, Hj.
  injection Hi as <-. injection Hj as <-. lia.
Qed.

Lemma credential_is_stored_after_discovery_witness :
  exists w',
    exec Scenario.fresh
      (successful_pairing 30 Scenario.accepted Scenario.bridge_lights)
      = Some w' /\
    username (adapter w') = Some "83b7780291a6ceffbe0bd049104df".
Proof.
  destruct (credential_is_stored_after_discovery Scenario.fresh 30
              Scenario.accepted (Some "83b7780291a6ceffbe0bd049104df")
              Scenario.bridge_lights)
    as (w' & new & Hexec & Hname & _);
    [vm_compute; reflexivity | vm_compute; reflexivity | vm_compute; reflexivity
    | exact bridge_lights_well_formed |].
  exists w'. split; [exact Hexec | exact Hname].
Defined.

Lemma paired_knows_its_username :
  truthy (username (adapter Scenario.paired)) = true.
Proof. vm_compute. reflexivity. Qed.

Lemma known_username_skips_registration_witness :
  truthy (username (adapter Scenario.paired)) = true /\
  run pair Scenario.paired =
    (Scenario.paired, Finished (inr (username (adapter Scenario.paired)))).
Proof.
  split; [exact paired_knows_its_username|].
  exact (proj1 (known_username_skips_registration Scenario.paired 30
                  paired_knows_its_username)).
Defined.

Lemma rediscovery_creates_nothing_witness :
  truthy (username (adapter Scenario.paired)) = true /\
  exists w1 w2,
    exec Scenario.paired (discovery Scenario.bridge_lights) = Some w1 /\
    exec w1 (discovery Scenario.bridge_lights) = Some w2 /\
    adapter w2 = adapter w1.
Proof.
  split; [exact paired_knows_its_username|].
  destruct (rediscovery_creates_nothing Scenario.paired Scenario.bridge_lights
              paired_knows_its_username)
    as (w1 & w2 & H1 & H2 & _ & _ & Hsame & _).
  exists w1, w2. split; [exact H1|]. split; [exact H2 | exact Hsame].
Defined.

Lemma stored_table_is_merged_witness :
  exists w',
    exec Scenario.fresh
      (successful_pairing 30 Scenario.accepted Scenario.bridge_lights)
      = Some w' /\
    storage w' !! KNOWN_BRIDGE_USERNAMES =
      Some (<["001788fffe23bfc2" := Some "83b7780291a6ceffbe0bd049104df"]> ∅).
Proof.
  destruct (stored_table_is_merged Scenario.fresh 30
              Scenario.accepted (Some "83b7780291a6ceffbe0bd049104df")
              Scenario.bridge_lights)
    as (w' & T' & earlier & Hexec & Hstore & HT & _);
    [vm_compute; reflexivity | vm_compute; reflexivity | vm_compute; reflexivity
    | exact bridge_lights_well_formed |].
  exists w'. split; [exact Hexec|]. rewrite Hstore, HT. vm_compute. reflexivity.
Defined.

Lemma paired_tracks_the_desk :
  lights (adapter Scenario.paired) !! "1" = Some Scenario.desk_device.
Proof. vm_compute. reflexivity. Qed.

Lemma property_change_payloads_witness :
  exists w',
    step Scenario.paired (host (m_setValue "1" "color" (JStr "#00FF00")))
      = Some w' /\
    List.filter is_request (map snd (since Scenario.paired w')) =
      [ called (fetch
          {| method := "PUT";
             uri := "http://192.168.1.10/api/83b7780291a6ceffbe0bd049104df/lights/1/state";
             headers := [("Content-Type", "application/json")];
             body := Some (JSON_stringify
                             [ ("hue", JNum (num_of_Z 21845));
                               ("sat", JNum (num_of_Z 255));
                               ("bri", JNum (num_of_Z 255)) ]) |}) ].
Proof.
  destruct (property_change_payloads Scenario.paired "1" Scenario.desk_device
              paired_tracks_the_desk) as (_ & Hcolor & _).
  edestruct (fun p c => Hcolor p c (JStr "#00FF00")) as (w' & Hstep & Hsince);
    [reflexivity | reflexivity | reflexivity |].
  exists w'. split; [exact Hstep|].
  rewrite Hsince. vm_compute. reflexivity.
Defined.

Lemma push_failure_is_swallowed_witness :
  exists w1 w2,
    step Scenario.paired (host (m_setValue "1" "on" (JBool false)))
      = Some w1 /\
    step w1 (settle 0 (Rejected "ECONNRESET")) = Some w2 /\
    since w1 w2 = [(clock w1, did (console_error "ECONNRESET"))] /\
    cached (adapter w2) "1" "on" = Some (JBool false).
Proof.
  destruct (push_failure_is_swallowed (num:=QArith_base.Q))
    as (_ & Hset & Hfail).
  destruct (Hset Scenario.paired "1" "on" (JBool false) (JBool true))
    as (w1 & Hs & Hc & Ht); [vm_compute; reflexivity|].
  assert (Hreq : exists req,
            tasks w1 !! 0%nat =
            Some {| waiting := fetch req; cont := push_after_fetch |}).
  { destruct Ht as [Ht | (req & _ & Ht)].
    - assert (E : from_option (fun w => length (tasks w)) 0%nat
                    (step Scenario.paired
                       (host (m_setValue "1" "on" (JBool false)))) =
                  length (tasks Scenario.paired))
        by (rewrite Hs; unfold from_option; now rewrite Ht).
      vm_compute in E. discriminate E.
    - exists req. now rewrite Ht. }
  destruct Hreq as (req & Hreq).
  destruct (Hfail w1 0%nat req "ECONNRESET" Hreq)
    as ((w2 & Hstep & Hsince & Ha & _) & _).
  exists w1, w2. split; [exact Hs|]. split; [exact Hstep|].
  split; [exact Hsince|]. now rewrite Ha.
Defined.

(** ** Runs of the further properties *)

Lemma constructor_without_username_stays_idle_witness :
  exists w',
    exec Scenario.constructed [settle 0 Resolved; settle 0 Resolved]
      = Some w' /\
    map snd (trace w') =
      [ did (console_error "no known username");
        called (storage_getItem KNOWN_BRIDGE_USERNAMES);
        called storage_init; did addAdapter ] /\
    username (adapter w') = None.
Proof.
  destruct (constructor_without_username_stays_idle (num:=QArith_base.Q)
              "001788fffe23bfc2" "192.168.1.10" Scenario.other_bridge_store 0)
    as (w' & He & Ht & Ha & _); [vm_compute; reflexivity|].
  exists w'. split; [exact He|]. split; [|now rewrite Ha].
  rewrite Ht. vm_compute. reflexivity.
Defined.

Lemma failed_attempt_is_retried_after_500_ms_witness :
  exists w1,
    exec Scenario.fresh
      [host (m_startPairing 30); tick 100; settle 0 (Rejected "ECONNREFUSED")]
      = Some w1 /\
    timers w1 = [(600, m_attemptPairing)] /\
    exec w1 [tick 499; fire 0] = None.
Proof.
  destruct (failed_attempt_is_retried_after_500_ms Scenario.fresh 30 100
              "ECONNREFUSED" [] [settle 0 (Rejected "ECONNREFUSED")])
    as (w1 & He & Ht & _ & _ & Hearly & _);
    [vm_compute; reflexivity | lia | left; reflexivity |].
  exists w1. split; [exact He|]. split; [exact Ht|]. apply Hearly. lia.
Defined.



Lemma unreadable_color_stops_the_pushes_witness :
  exists w1 w2,
    step Scenario.paired (host (m_setValue "1" "color" (JStr "warm white")))
      = Some w1 /\
    step w1 (host (m_setValue "1" "on" (JBool false))) = Some w2 /\
    cached (adapter w2) "1" "on" = Some (JBool false) /\
    tasks w2 = [].
Proof.
  edestruct (fun p_on p_color =>
               unreadable_color_stops_the_pushes Scenario.paired "1"
                 Scenario.desk_device p_on p_color (JStr "warm white"))
    as (w1 & Hs1 & _ & _ & _ & Hon);
    [ exact paired_tracks_the_desk | reflexivity | reflexivity | reflexivity
    | reflexivity | reflexivity | ].
  destruct (Hon (JBool false)) as (w2 & Hs2 & Hc & _ & _ & Ht).
  exists w1, w2. split; [exact Hs1|]. split; [exact Hs2|].
  split; [exact Hc|]. rewrite Ht. vm_compute. reflexivity.
Defined.

Lemma setValue_changes_one_value_witness :
  exists w',
    step Scenario.paired (host (m_setValue "1" "on" (JBool false))) = Some w' /\
    cached (adapter w') "1" "on" = Some (JBool false) /\
    cached (adapter w') "2" "on" = Some (JBool false) /\
    cached (adapter w') "1" "color" = cached (adapter Scenario.paired) "1" "color".
Proof.
  destruct (setValue_changes_one_value Scenario.paired "1" "on" (JBool false)
              (JBool true))
    as (w' & Hs & Hc & Hframe & _); [vm_compute; reflexivity|].
  exists w'. split; [exact Hs|]. split; [exact Hc|]. split.
  - rewrite Hframe by (left; discriminate). vm_compute. reflexivity.
  - apply Hframe. right. discriminate.
Defined.

Lemma cancelling_keeps_the_attempt_in_flight_witness :
  exists w1,
    exec Scenario.fresh
      [ host (m_startPairing 30); host m_cancelPairing;
        settle 0 Resolved; settle 0 (PairReply Scenario.accepted) ]
      = Some w1 /\
    pairing (adapter w1) = false /\
    username (adapter w1) = Some "83b7780291a6ceffbe0bd049104df".
Proof.
  destruct (cancelling_keeps_the_attempt_in_flight Scenario.fresh 30
              Scenario.accepted (Some "83b7780291a6ceffbe0bd049104df"))
    as (w1 & He & Hp & Hu & _);
    [vm_compute; reflexivity | reflexivity | vm_compute; reflexivity |].
  exists w1. split; [exact He|]. split; [exact Hp|exact Hu].
Defined.

Lemma second_startPairing_registers_again_witness :
  exists w1,
    exec Scenario.fresh [host (m_startPairing 30); host (m_startPairing 60)]
      = Some w1 /\
    length (tasks w1) = 2%nat /\
    pairingEnd (adapter w1) = 60000.
Proof.
  destruct (second_startPairing_registers_again Scenario.fresh 30 60)
    as (w1 & He & _ & Ht & Hp); [vm_compute; reflexivity|].
  exists w1. split; [exact He|]. split.
  - rewrite <- (length_map waiting), Ht. reflexivity.
  - rewrite Hp. reflexivity.
Defined.

Lemma light_without_state_aborts_discovery_witness :
  exists w1 w2,
    exec Scenario.paired (discovery Scenario.bridge_lights) = Some w1 /\
    exec Scenario.paired
      (discovery (Scenario.bridge_lights ++
                  [("3", Scenario.attic); ("4", Scenario.porch)])) = Some w2 /\
    adapter w2 = adapter w1 /\
    tracked (lights (adapter w2)) "3" = false.
Proof.
  destruct (light_without_state_aborts_discovery Scenario.paired
              Scenario.bridge_lights "3" Scenario.attic
              [("4", Scenario.porch)])
    as (w1 & w2 & e & He1 & He2 & Ha & _ & _ & Hk);
    [ exact paired_knows_its_username | exact bridge_lights_well_formed
    | cbn; intros [H|[H|[]]]; discriminate H
    | vm_compute; reflexivity | reflexivity | ].
  exists w1, w2. split; [exact He1|]. split; [exact He2|].
  split; [exact Ha|exact Hk].
Defined.

Lemma at_noon_is_reached :
  exec Scenario.constructed Scenario.first_day = Some Scenario.at_noon.
Proof. apply exec_default. vm_compute. reflexivity. Qed.

Lemma at_night_is_reached :
  exec Scenario.at_noon Scenario.evening = Some Scenario.at_night.
Proof. apply exec_default. vm_compute. reflexivity. Qed.

Lemma at_midnight_is_reached :
  exec Scenario.constructed (Scenario.first_day ++ Scenario.evening)
    = Some Scenario.at_midnight.
Proof. apply exec_default. vm_compute. reflexivity. Qed.

Lemma tracked_lights_stay_tracked_witness :
  exists d',
    lights (adapter Scenario.at_night) !! "1" = Some d' /\
    same_device Scenario.desk_device d'.
Proof.
  apply (tracked_lights_stay_tracked "001788fffe23bfc2" "192.168.1.10"
           Scenario.other_bridge_store 0 Scenario.first_day Scenario.evening
           Scenario.at_noon Scenario.at_night "1" Scenario.desk_device).
  - exact at_noon_is_reached.
  - exact at_night_is_reached.
  - vm_compute. reflexivity.
Defined.

Lemma tracked_devices_are_as_discovered_witness :
  bridgeId (adapter Scenario.at_midnight) = "001788fffe23bfc2" /\
  bridgeIp (adapter Scenario.at_midnight) = "192.168.1.10" /\
  forall k d, lights (adapter Scenario.at_midnight) !! k = Some d ->
              device_ok "001788fffe23bfc2" k d.
Proof.
  apply (tracked_devices_are_as_discovered "001788fffe23bfc2" "192.168.1.10"
           Scenario.other_bridge_store 0
           (Scenario.first_day ++ Scenario.evening)).
  exact at_midnight_is_reached.
Defined.

Lemma store_is_changed_at_one_entry_witness :
  others_kept "001788fffe23bfc2" Scenario.other_bridge_store
    (storage Scenario.at_midnight).
Proof.
  apply (store_is_changed_at_one_entry "001788fffe23bfc2" "192.168.1.10"
           Scenario.other_bridge_store 0
           (Scenario.first_day ++ Scenario.evening)).
  exact at_midnight_is_reached.
Defined.

Lemma requests_go_to_the_bridge_witness :
  In (0, called (fetch (pair_request Scenario.bridge)))
     (trace Scenario.at_midnight) /\
  entry_ok "192.168.1.10" (called (fetch (pair_request Scenario.bridge))).
Proof.
  assert (H : In (0, called (fetch (pair_request Scenario.bridge)))
                 (trace Scenario.at_midnight)).
  { vm_compute. repeat first [left; reflexivity | right]. }
  split; [exact H|].
  exact (requests_go_to_the_bridge "001788fffe23bfc2" "192.168.1.10"
           Scenario.other_bridge_store 0
           (Scenario.first_day ++ Scenario.evening) Scenario.at_midnight
           0 _ at_midnight_is_reached H).
Defined.

Lemma unknown_property_is_never_reported_witness :
  exec Scenario.constructed (Scenario.first_day ++ Scenario.evening)
    = Some Scenario.at_midnight /\
  ~ In (0, did (console_warn "Unknown property:" "on"))
       (trace Scenario.at_midnight).
Proof.
  split; [exact at_midnight_is_reached|].
  apply (unknown_property_is_never_reported "001788fffe23bfc2" "192.168.1.10"
           Scenario.other_bridge_store 0
           (Scenario.first_day ++ Scenario.evening)).
  exact at_midnight_is_reached.
Defined.

Lemma startup_discovery_failure_is_unhandled_witness :
  exists w',
    exec (construct "001788fffe23bfc2" "192.168.1.10" Scenario.known_store 0)
      [settle 0 Resolved; settle 0 Resolved; settle 0 (Rejected "EHOSTUNREACH")]
      = Some w' /\
    head (map snd (trace w')) = Some (unhandled "EHOSTUNREACH") /\
    timers w' = [].
Proof.
  edestruct (fun known =>
               startup_discovery_failure_is_unhandled (num:=QArith_base.Q)
                 "001788fffe23bfc2" "192.168.1.10" Scenario.known_store 0
                 known (Some "83b7780291a6ceffbe0bd049104df") "EHOSTUNREACH")
    as (w' & He & Ht & _ & _ & _ & Htm);
    [reflexivity | reflexivity | vm_compute; reflexivity |].
  exists w'. split; [exact He|]. split; [now rewrite Ht|exact Htm].
Defined.

Lemma discovery_creates_the_devices_witness :
  exists w',
    exec Scenario.returning (discovery Scenario.bridge_lights) = Some w' /\
    lights (adapter w') !! "1" = Some Scenario.desk_device /\
    lights (adapter w') !! "2" = Some Scenario.hall_device /\
    dev_id Scenario.desk_device = "philips-hue-001788fffe23bfc2-1" /\
    dev_name Scenario.desk_device = "Desk" /\
    cached (adapter w') "1" "on" = Some (JBool true) /\
    cached (adapter w') "2" "color" = Some (JStr "#808080") /\
    map snd (since Scenario.returning w') =
      [ called (fetch (lights_request (adapter Scenario.returning)));
        called json_lights;
        did (handleDeviceAdded Scenario.desk_device);
        did (handleDeviceAdded Scenario.hall_device) ].
Proof.
  destruct (discovery_creates_the_devices Scenario.returning
              Scenario.bridge_lights
              [Scenario.desk_device; Scenario.hall_device])
    as (w' & He & Hs & Hl & _).
  - vm_compute. reflexivity.
  - repeat constructor.
  - refine (bool_decide_unpack _ _). vm_compute. reflexivity.
  - intros k _. reflexivity.
  - repeat constructor; eexists; split; reflexivity.
  - exists w'. split; [exact He|]. unfold cached. rewrite Hl, Hs.
    split_and!; vm_compute; reflexivity.
Defined.


Lemma setValue_resolves_to_the_value_witness :
  exists w',
    run (setValue "1" "color" (JStr "warm white")) Scenario.paired =
    (w', Finished (inr (JStr "warm white"))).
Proof.
  edestruct (fun old =>
               setValue_resolves_to_the_value Scenario.paired "1" "color"
                 (JStr "warm white") old) as (w' & Hrun);
    [vm_compute; reflexivity|].
  exists w'. exact Hrun.
Defined.


